(** * CIEGL22: extraction of EDCS inscriptions and search for migrants

    A shallow embedding of the text-processing core of the repository:
    - [EDCS_Extract.py]: the markup normaliser ([get_cleantext] and its
      helpers), the findspot sub-field readers ([get_lat], [get_long],
      [get_findspot], [get_province]), [search_province] and the positional
      field extractor [get_insc_dict];
    - [Find_Migrants.py]: [no_tags], [get_toponyms] and [search_toponyms];
    - [Analyse_Inscriptions.py]: [ignore_duplicates].

    Python strings are modelled as lists of characters.  A character is a
    code point below 256 (Rocq's [ascii]); the character classes of
    [str.isspace], [str.isalpha], [str.isnumeric] and the mapping of
    [str.lower] are those of Python 3 on that range.  Python integers are [Z];
    an index that Python reads with wrap-around ([text[-1]]) is read with
    wrap-around here, and an index out of range raises [IndexError]. *)

From Stdlib Require Import ZArith Ascii String List Bool Lia Permutation.
Import ListNotations.
Local Open Scope Z_scope.
Local Open Scope list_scope.

(** ** Python values used by the code *)

Definition str := list ascii.

(** String literals of the source, as character lists. *)
Definition L (s : string) : str := list_ascii_of_string s.
Arguments L s%_string.

Definition len {A : Type} (l : list A) : Z := Z.of_nat (length l).

Fixpoint str_eqb (a b : str) : bool :=
  match a, b with
  | [], [] => true
  | x :: a', y :: b' => Ascii.eqb x y && str_eqb a' b'
  | _, _ => false
  end.

(** Exceptions that the modelled functions can raise. *)
Inductive exn : Type :=
| IndexError
| ValueError.

Inductive result (A : Type) : Type :=
| Ok (a : A)
| Raise (e : exn).
Arguments Ok {A} a.
Arguments Raise {A} e.

Definition bind {A B : Type} (m : result A) (f : A -> result B) : result B :=
  match m with
  | Ok a => f a
  | Raise e => Raise e
  end.

Notation "x <- m ;; k" := (bind m (fun x => k))
  (at level 61, m at next level, right associativity).

Module Py.

Definition code (c : ascii) : N := N_of_ascii c.

Definition between (lo hi : N) (c : ascii) : bool :=
  ((lo <=? code c) && (code c <=? hi))%N.

Definition code_is (n : N) (c : ascii) : bool := (code c =? n)%N.

(** [str.isspace] on code points below 256: TAB..CR, FS..US, space,
    NEL (0x85) and the no-break space (0xA0). *)
Definition isspace (c : ascii) : bool :=
  between 9 13 c || between 28 32 c || code_is 133 c || code_is 160 c.

(** The decimal digits [int] accepts. *)
Definition isdecimal (c : ascii) : bool := between 48 57 c.

(** [str.isnumeric]: the decimal digits, superscripts 2, 3 and 1
    (0xB2, 0xB3, 0xB9) and the fractions 0xBC..0xBE. *)
Definition isnumeric (c : ascii) : bool :=
  isdecimal c || code_is 178 c || code_is 179 c || code_is 185 c || between 188 190 c.

(** [str.isalpha]: the letters of Latin-1. *)
Definition isalpha (c : ascii) : bool :=
  between 65 90 c || between 97 122 c || code_is 170 c || code_is 181 c || code_is 186 c
  || between 192 214 c || between 216 246 c || between 248 255 c.

(** [str.lower] on one character. *)
Definition lower (c : ascii) : ascii :=
  if between 65 90 c || between 192 214 c || between 216 222 c
  then ascii_of_N (code c + 32)
  else c.

(** [l[i]]: negative indices count from the end; [None] is IndexError. *)
Definition index {A : Type} (l : list A) (i : Z) : option A :=
  if 0 <=? i then nth_error l (Z.to_nat i)
  else if - len l <=? i then nth_error l (Z.to_nat (len l + i))
  else None.

(** [l[a:b]] with Python's clamping of both bounds. *)
Definition clamp (n i : Z) : Z :=
  if i <? 0 then Z.max 0 (i + n) else Z.min i n.

Definition slice {A : Type} (l : list A) (a b : Z) : list A :=
  let a' := clamp (len l) a in
  let b' := clamp (len l) b in
  firstn (Z.to_nat (b' - a')) (skipn (Z.to_nat a') l).

(** The characters [text[j]] for [j] in [range(a, b)], where
    [0 <= a] and [b <= len(text)] (every loop of this shape in the source
    stays inside the string). *)
Definition chars (text : str) (a b : Z) : str :=
  firstn (Z.to_nat (b - a)) (skipn (Z.to_nat a) text).

Fixpoint startswith (s p : str) : bool :=
  match p, s with
  | [], _ => true
  | x :: p', y :: s' => Ascii.eqb x y && startswith s' p'
  | _ :: _, [] => false
  end.

(** [find_from sub s pos]: [s] is the text from position [pos] on. *)
Fixpoint find_from (sub s : str) (pos : Z) : Z :=
  if startswith s sub then pos
  else match s with
       | [] => -1
       | _ :: s' => find_from sub s' (pos + 1)
       end.

(** [text.find(sub, start)] for [0 <= start]; -1 when absent. *)
Definition find (text sub : str) (start : Z) : Z :=
  find_from sub (skipn (Z.to_nat start) text) start.

(** [sub in text]. *)
Definition contains (text sub : str) : bool :=
  negb (find text sub 0 =? -1).

(** [x in l] for a list of strings. *)
Definition mem (x : str) (l : list str) : bool := existsb (str_eqb x) l.

(** [sep.join(l)]. *)
Fixpoint join (sep : str) (l : list str) : str :=
  match l with
  | [] => []
  | [w] => w
  | w :: ws => w ++ sep ++ join sep ws
  end.

(** [s.split()]: maximal runs of non-space characters.  The auxiliary
    function returns the word that is still open at the front of [s]
    and the words completed behind it. *)
Fixpoint split_aux (s : str) : str * list str :=
  match s with
  | [] => ([], [])
  | c :: s' =>
      let (w, ws) := split_aux s' in
      if isspace c
      then ([], match w with [] => ws | _ :: _ => w :: ws end)
      else (c :: w, ws)
  end.

Definition split (s : str) : list str :=
  let (w, ws) := split_aux s in
  match w with [] => ws | _ :: _ => w :: ws end.

(** [s.split(sep)] for a one-character separator, and [re.split] on a
    character class: every separator character cuts; the result is
    never empty. *)
Fixpoint split_by (sep : ascii -> bool) (s : str) : list str :=
  match s with
  | [] => [[]]
  | c :: s' =>
      if sep c then [] :: split_by sep s'
      else match split_by sep s' with
           | w :: ws => (c :: w) :: ws
           | [] => [[c]]
           end
  end.

Definition split_on (sep : ascii) (s : str) : list str :=
  split_by (Ascii.eqb sep) s.

Fixpoint lstrip (s : str) : str :=
  match s with
  | [] => []
  | c :: s' => if isspace c then lstrip s' else s
  end.

Definition rstrip (s : str) : str := rev (lstrip (rev s)).

(** [s.strip()]. *)
Definition strip (s : str) : str := rstrip (lstrip s).

Definition digit (c : ascii) : Z := Z.of_N (code c) - 48.

(** The digits of an integer literal: decimal digits, with single
    underscores allowed between two digits. *)
Fixpoint digits (s : str) (acc : Z) (after_digit : bool) : option Z :=
  match s with
  | [] => if after_digit then Some acc else None
  | c :: s' =>
      if isdecimal c then digits s' (10 * acc + digit c) true
      else if Ascii.eqb c "_" && after_digit then digits s' acc false
      else None
  end.

(** An integer literal without surrounding whitespace: one sign is
    allowed. *)
Definition int_literal (w : str) : option Z :=
  match w with
  | c :: r =>
      if Ascii.eqb c "+" then digits r 0 false
      else if Ascii.eqb c "-" then option_map Z.opp (digits r 0 false)
      else digits (c :: r) 0 false
  | [] => None
  end.

(** The whitespace that [int] drops around a literal: TAB..CR and the
    space, and of the characters from 127 on those that are whitespace
    (0x85 and 0xA0).  The separators 0x1C..0x1F, which [str.split] and
    [str.strip] treat as whitespace, are not dropped by [int]. *)
Definition int_space (c : ascii) : bool :=
  between 9 13 c || code_is 32 c || code_is 133 c || code_is 160 c.

Fixpoint int_lstrip (s : str) : str :=
  match s with
  | [] => []
  | c :: s' => if int_space c then int_lstrip s' else s
  end.

Definition int_strip (s : str) : str :=
  rev (int_lstrip (rev (int_lstrip s))).

(** [int(s)]: surrounding whitespace is dropped; [None] is ValueError. *)
Definition int (s : str) : option Z := int_literal (int_strip s).

(** [list(dict.fromkeys(l))]: first occurrences, in order. *)
Fixpoint dedup_acc (seen : list str) (l : list str) : list str :=
  match l with
  | [] => []
  | x :: l' => if mem x seen then dedup_acc seen l'
               else x :: dedup_acc (x :: seen) l'
  end.

Definition dedup (l : list str) : list str := dedup_acc [] l.

End Py.

(** ** MarkupNormalizer ([EDCS_Extract.py]) *)

Module Normalizer.
Import Py.

(** [text[i] == c], for an index that is in range. *)
Definition char_is (text : str) (i : Z) (c : ascii) : bool :=
  match index text i with
  | Some x => Ascii.eqb x c
  | None => false
  end.

(** [text[i].isnumeric()]. *)
Definition numeric_at (text : str) (i : Z) : bool :=
  match index text i with
  | Some x => isnumeric x
  | None => false
  end.

(** [missing(text, i)].  The guard [i < len(text) - 2] keeps [i + 2] in
    range, and [i - 1], [i - 2] wrap around to the end of the string when
    negative.  The middle test of the second condition is the bound
    method [text[i].isnumeric], which is always true. *)
Definition missing (text : str) (i : Z) : bool :=
  if i <? len text - 2 then
    if char_is text i "[" && numeric_at text (i + 1)
       && char_is text (i + 2) "]" then true
    else if char_is text (i - 1) "[" && true
            && char_is text (i + 1) "]" then true
    else if char_is text (i - 2) "[" && numeric_at text (i - 1)
            && char_is text i "]" then true
    else false
  else false.

(** One entry of [opening_list], [equals_list], [closing_list]. *)
Record span : Type := mkSpan { opens : Z; equals : Z; closes : Z }.

(** The [while opens != -1 and opens + 1 < len(text)] loop of
    [correct_text].  [opens] grows at every turn and stays below
    [len(text)], so [length text] turns are enough. *)
Fixpoint correct_scan (fuel : nat) (text : str) (o : Z) : list span :=
  match fuel with
  | O => []
  | S fuel' =>
      if negb (o =? -1) && (o + 1 <? len text) then
        mkSpan o (find text (L "=") o) (find text (L ">") o)
        :: correct_scan fuel' text (find text (L "<") (o + 1))
      else []
  end.

(** The [for i in range(len(opening_list))] loop: state is
    [(corrected, closing)]. *)
Fixpoint correct_build (text : str) (spans : list span)
         (corrected : str) (closing : Z) : str * Z :=
  match spans with
  | [] => (corrected, closing)
  | sp :: rest =>
      let corrected1 := corrected ++ chars text closing (opens sp) in
      let closing1 := closes sp + 1 in
      let corrected2 :=
        corrected1 ++ map lower (chars text (opens sp + 1) (equals sp)) in
      correct_build text rest corrected2 closing1
  end.

Definition correct_text (text : str) : str :=
  let spans := correct_scan (length text) text (find text (L "<") 0) in
  let (corrected, closing) := correct_build text spans [] 0 in
  corrected ++ chars text closing (len text).

Fixpoint superficial_scan (fuel : nat) (text : str) (o : Z) : list (Z * Z) :=
  match fuel with
  | O => []
  | S fuel' =>
      if negb (o =? -1) && (o + 1 <? len text) then
        (o, find text (L "}") o)
        :: superficial_scan fuel' text (find text (L "{") (o + 1))
      else []
  end.

Fixpoint superficial_build (text : str) (spans : list (Z * Z))
         (res : str) (closing : Z) : str * Z :=
  match spans with
  | [] => (res, closing)
  | (o, c) :: rest =>
      superficial_build text rest (res ++ chars text closing o) (c + 1)
  end.

Definition remove_superficial_letters (text : str) : str :=
  let spans := superficial_scan (length text) text (find text (L "{") 0) in
  let (res, closing) := superficial_build text spans [] 0 in
  res ++ chars text closing (len text).

(** The filtering loop of [get_cleantext]: [rest] is [text] from
    position [i] on. *)
Fixpoint keep (text rest : str) (i : Z) : str :=
  match rest with
  | [] => []
  | c :: rest' =>
      if isspace c || isalpha c || missing text i
      then c :: keep text rest' (i + 1)
      else keep text rest' (i + 1)
  end.

Definition get_cleantext (text0 : str) : str :=
  let equals := find text0 (L "=") 0 in
  let curly := find text0 (L "{") 0 in
  let text1 := if negb (equals =? -1) then correct_text text0 else text0 in
  let text2 :=
    if negb (curly =? -1) then remove_superficial_letters text1 else text1 in
  let result := keep text2 text2 0 in
  join (L " ") (split result).

End Normalizer.

(** ** Findspot sub-fields ([EDCS_Extract.py]) *)

Module Findspot.
Import Py.

(** What [get_lat] and [get_long] can return: [np.nan] when the tag is
    absent, a float (kept as the literal that [float] accepted), the
    collected text when [float] rejects it, or [None] when the loop runs
    off the end of the string. *)
Inductive coord : Type :=
| CNaN
| CFloat (literal : str)
| CStr (s : str)
| CNone.

Fixpoint span_decimal (s : str) : str * str :=
  match s with
  | [] => ([], [])
  | c :: s' =>
      if isdecimal c
      then let (d, r) := span_decimal s' in (c :: d, r)
      else ([], s)
  end.

Definition nonempty (s : str) : bool :=
  match s with [] => false | _ :: _ => true end.

Definition float_unsigned (s : str) : bool :=
  let (ip, rest) := span_decimal s in
  match rest with
  | [] => nonempty ip
  | c :: fp =>
      Ascii.eqb c "." && forallb isdecimal fp && (nonempty ip || nonempty fp)
  end.

(** Whether [float(s)] succeeds, for [s] made of numeric characters, full
    stops and minus signs (all that the readers collect). *)
Definition float_ok (s : str) : bool :=
  match s with
  | c :: r => if Ascii.eqb c "-" then float_unsigned r else float_unsigned s
  | [] => false
  end.

(** The [for i in range(start + n, len(place))] loop of [get_lat] and
    [get_long]; [rest] is [place] from position [i] on. *)
Fixpoint read_coord (rest : str) (result : str) : coord :=
  match rest with
  | [] => CNone
  | c :: rest' =>
      if isnumeric c || Ascii.eqb c "." || Ascii.eqb c "-"
      then read_coord rest' (result ++ [c])
      else if float_ok result then CFloat result else CStr result
  end.

Definition get_lat (place : str) : coord :=
  let start := find place (L "latitude=") 0 in
  if start =? -1 then CNaN
  else read_coord (skipn (Z.to_nat (start + 9)) place) [].

Definition get_long (place : str) : coord :=
  let start := find place (L "longitude=") 0 in
  if start =? -1 then CNaN
  else read_coord (skipn (Z.to_nat (start + 10)) place) [].

(** [get_findspot]: [None] is Python's [None], returned when no ["<"]
    follows the first [">"]. *)
Fixpoint read_findspot (rest : str) (result : str) : option str :=
  match rest with
  | [] => None
  | c :: rest' =>
      if Ascii.eqb c "<" then Some result
      else read_findspot rest' (result ++ [c])
  end.

Definition get_findspot (place : str) : option str :=
  let start := find place (L ">") 0 in
  if start =? -1 then Some (L "error")
  else read_findspot (skipn (Z.to_nat (start + 1)) place) [].

(** [str.isalnum]. *)
Definition isalnum (c : ascii) : bool := isalpha c || isnumeric c.

Fixpoint read_province (rest : str) (result : str) : str :=
  match rest with
  | [] => result
  | c :: rest' =>
      if isalnum c || isspace c || Ascii.eqb c "/"
      then read_province rest' (result ++ [c])
      else result
  end.

Definition get_province (place : str) : str :=
  let start := find place (L "provinz=") 0 in
  if start =? -1 then L "error"
  else read_province (skipn (Z.to_nat (start + 8)) place) [].

(** [province_list] of [search_province].  The source writes
    ['Aquitanica' 'Cyprus'] without a comma, which Python reads as the
    single string ['AquitanicaCyprus']. *)
Definition province_list : list str :=
  [L "Achaia"; L "Baetica"; L "Galatia"; L "Mauretania Tingitana";
   L "Regnum Bospori"; L "Aegyptus"; L "Barbaricum"; L "Raetia";
   L "Gallia Narbonensis"; L "Mesopotamia"; L "Roma"; L "Asia";
   L "Aemilia / Regio VIII"; L "Belgica"; L "Germania inferior";
   L "Moesia inferior"; L "Samnium / Regio IV"; L "Armenia";
   L "Africa proconsularis"; L "Britannia"; L "Germania superior";
   L "Moesia superior"; L "Sardinia"; L "Alpes Cottiae"; L "Dacia";
   L "Bruttium et Lucania / Regio III"; L "Hispania citerior";
   L "Noricum"; L "Sicilia"; L "Alpes Graiae"; L "Cappadocia";
   L "Italia"; L "Numidia"; L "Syria"; L "Alpes Maritimae"; L "Arabia";
   L "Cilicia"; L "Latium et Campania / Regio I"; L "Palaestina";
   L "Thracia"; L "Alpes Poeninae"; L "Corsica"; L "Macedonia";
   L "Liguria / Regio IX"; L "Pannonia inferior"; L "Dalmatia";
   L "Transpadana / Regio XI"; L "Apulia et Calabria / Regio II";
   L "Creta et Cyrenaica"; L "Lugudunensis"; L "Pannonia superior";
   L "Umbria / Regio VI"; L "Aquitania"; L "AquitanicaCyprus";
   L "Lusitania"; L "Picenum / Regio V"; L "Pontus et Bithynia";
   L "Venetia et Histria / Regio X"; L "Provincia incerta";
   L "Lycia et Pamphylia"; L "Etruria / Regio VII";
   L "Mauretania Caesariensis"; L "Aquitani(c)a"].

(** [part.strip() in province_list] for some [part] of
    [elem.split("|")]. *)
Definition part_matches (elem : str) : bool :=
  existsb (fun part => mem (strip part) province_list) (split_on "|" elem).

Fixpoint search_province (insc : list str) : str :=
  match insc with
  | [] => L "n/a"
  | elem :: rest =>
      if mem elem province_list then elem
      else if contains elem (L "|") then
        if part_matches elem then elem else search_province rest
      else search_province rest
  end.

End Findspot.

(** ** FieldExtractor ([get_insc_dict] of [EDCS_Extract.py]) *)

Module Extractor.
Import Py Findspot.

Definition keyword_list : list str :=
  [L "carmina"; L "signacula"; L "Augusti/Augustae";
   L "praenomen et nomen"; L "defixiones"; L "signacula medicorum";
   L "liberti/libertae"; L "reges"; L "diplomata militaria";
   L "termini"; L "milites"; L "sacerdotes christiani";
   L "inscriptiones christianae"; L "tesserae nummulariae";
   L "mulieres"; L "sacerdotes pagani"; L "leges";
   L "tituli fabricationis"; L "nomen singulare"; L "servi/servae";
   L "litterae erasae "; L "tituli honorarii";
   L "officium/professio"; L "seviri Augustales";
   L "litterae in litura"; L "tituli operum"; L "ordo decurionum";
   L "tria nomina"; L "miliaria"; L "tituli possessionis";
   L "ordo equester"; L "viri"; L "senatus consulta"; L "tituli sacri";
   L "ordo senatorius"; L "sigilla impressa"; L "tituli sepulcrales"].

Definition material_list : list str :=
  [L "aes"; L "cyprum"; L "lignum"; L "os"; L "sucineus"; L "argentum";
   L "ferrum"; L "musivum"; L "plumbum"; L "tectorium"; L "aurum";
   L "gemma"; L "opus figlinae"; L "rupes"; L "textum"; L "corium";
   L "lapis"; L "orichalcum"; L "steatitis"; L "vitrum"].

Definition na : str := L "n/a".

(** The variables set by the first loop over the fragments.  An index
    that is still [np.nan] is [None]. *)
Record scan : Type := mkScan {
  edcs_id : option str;
  edcs_id_i : option Z;
  place : str;
  place_i : option Z;
  keywords : str;
  keywords_i : option Z;
  material : str;
  material_i : option Z
}.

Definition scan0 : scan := mkScan None None na None na None na None.

Definition set_id (s : scan) (v : str) (i : Z) : scan :=
  mkScan (Some v) (Some i) (place s) (place_i s) (keywords s)
         (keywords_i s) (material s) (material_i s).

Definition set_place (s : scan) (v : str) (i : Z) : scan :=
  mkScan (edcs_id s) (edcs_id_i s) v (Some i) (keywords s)
         (keywords_i s) (material s) (material_i s).

Definition set_keywords (s : scan) (v : str) (i : Z) : scan :=
  mkScan (edcs_id s) (edcs_id_i s) (place s) (place_i s) v (Some i)
         (material s) (material_i s).

Definition set_material (s : scan) (v : str) (i : Z) : scan :=
  mkScan (edcs_id s) (edcs_id_i s) (place s) (place_i s) (keywords s)
         (keywords_i s) v (Some i).

(** [for elem in elements] of the [';' in insc[i]] branch. *)
Fixpoint scan_elements (all elems : list str) (i : Z) (s : scan) : scan :=
  match elems with
  | [] => s
  | elem :: rest =>
      if mem elem keyword_list
      then scan_elements all rest i (set_keywords s (join (L ", ") all) i)
      else if mem elem material_list
      then scan_elements all rest i (set_material s (join (L ", ") all) i)
      else scan_elements all rest i s
  end.

(** One turn of [for i in range(len(insc))] on [frag = insc[i]]. *)
Definition scan_step (s : scan) (frag : str) (i : Z) : scan :=
  if match edcs_id s with None => true | Some _ => false end
     && str_eqb (slice frag 0 5) (L "EDCS-")
  then set_id s frag i
  else if str_eqb (slice frag 0 4) (L "<!--") then set_place s frag i
  else if mem frag keyword_list then set_keywords s frag i
  else if mem frag material_list then set_material s frag i
  else if contains frag (L ";") then
    let elements := split_on ";" frag in
    scan_elements elements elements i s
  else s.

Fixpoint scan_loop (frags : list str) (i : Z) (s : scan) : scan :=
  match frags with
  | [] => s
  | frag :: rest => scan_loop rest (i + 1) (scan_step s frag i)
  end.

(** [" ".join(s.split())]. *)
Definition squeeze (s : str) : str := join (L " ") (split s).

(** [for letter in elem: if letter.isnumeric(): nums.append(elem)]. *)
Fixpoint append_per_numeric (letters : str) (elem : str) (nums : list str)
  : list str :=
  match letters with
  | [] => nums
  | letter :: rest =>
      if isnumeric letter
      then append_per_numeric rest elem (nums ++ [elem])
      else append_per_numeric rest elem nums
  end.

(** [for j in range(1, edcs_id_i)] over [insc[1:edcs_id_i]]. *)
Fixpoint collect_nums (frags : list str) (nums : list str) : list str :=
  match frags with
  | [] => nums
  | frag :: rest =>
      let elem := strip frag in
      collect_nums rest (append_per_numeric elem elem nums)
  end.

(** [for n in numbers]: append the parsed parts; the first part that
    [int] rejects sets [error] and breaks. State is [(dates, error)]. *)
Fixpoint parse_parts (numbers : list str) (dates : list Z) (error : bool)
  : list Z * bool :=
  match numbers with
  | [] => (dates, error)
  | n :: rest =>
      match int n with
      | Some v => parse_parts rest (dates ++ [v]) error
      | None => (dates, true)
      end
  end.

Definition is_sep (c : ascii) : bool :=
  Ascii.eqb c "," || Ascii.eqb c ";" || Ascii.eqb c ":".

(** [for number in nums]. *)
Fixpoint parse_nums (nums : list str) (dates : list Z) (error : bool)
  : list Z * bool :=
  match nums with
  | [] => (dates, error)
  | number :: rest =>
      match int number with
      | Some v => parse_nums rest (dates ++ [v]) error
      | None =>
          let (dates', error') :=
            parse_parts (split_by is_sep number) dates error in
          parse_nums rest dates' error'
      end
  end.

(** [min(dates)] and [max(dates)]; [None] is the ValueError of an empty
    argument. *)
Definition py_min (l : list Z) : option Z :=
  match l with
  | [] => None
  | x :: l' => Some (fold_left Z.min l' x)
  end.

Definition py_max (l : list Z) : option Z :=
  match l with
  | [] => None
  | x :: l' => Some (fold_left Z.max l' x)
  end.

(** The variables after the publication and date step.  [date_from] and
    [date_to] are the names the source assigns in the branch for an
    identifier at an odd position from 5 on; they are read nowhere. *)
Record dating : Type := mkDating {
  publication : str;
  time_from : option Z;
  time_to : option Z;
  date_from : option Z;
  date_to : option Z;
  error : bool
}.

Definition get_dating (insc : list str) (k : Z) : result dating :=
  if k =? 1 then
    match index insc 0 with
    | Some p => Ok (mkDating p None None None None false)
    | None => Raise IndexError
    end
  else if k =? 3 then
    match index insc 0, index insc 1, index insc 2 with
    | Some p, Some f1, Some f2 =>
        let tf := int (squeeze f1) in
        let tt := int (squeeze f2) in
        let err :=
          match tf, tt with Some _, Some _ => false | _, _ => true end in
        Ok (mkDating p tf tt None None err)
    | _, _, _ => Raise IndexError
    end
  else if (5 <=? k) && (k mod 2 =? 1) then
    match index insc 0 with
    | Some p =>
        let nums := dedup (collect_nums (slice insc 1 k) []) in
        let (dates, err) := parse_nums nums [] false in
        if err then Ok (mkDating (L "error") None None None None true)
        else
          match py_min dates, py_max dates with
          | Some lo, Some hi =>
              Ok (mkDating p None None (Some lo) (Some hi) false)
          | _, _ => Raise ValueError
          end
    | None => Raise IndexError
    end
  else Ok (mkDating (L "error") None None None None false).

(** The dictionary [inscription_data] built for one inscription. *)
Module Data.
Record t : Type := mk {
  publication : str;
  edcs_id : str;
  time_from : option Z;
  time_to : option Z;
  province : str;
  findspot : option str;
  find_lat : coord;
  find_long : coord;
  text : str;
  cleantext : str;
  keywords : str;
  material : str;
  dump : list str
}.
End Data.

(** [text_i] as chosen from the indices found by the first loop. *)
Definition get_text_i (s : scan) : Z :=
  match keywords_i s with
  | Some ki => ki - 1
  | None =>
      match material_i s with
      | Some mi => mi - 1
      | None =>
          match place_i s with
          | Some pi => pi + 2
          | None => -1
          end
      end
  end.

(** [idx != findspot_i], where [findspot_i] may still be [np.nan]. *)
Definition differs (idx : Z) (findspot_i : option Z) : bool :=
  match findspot_i with
  | Some fi => negb (idx =? fi)
  | None => true
  end.

(** [for idx, elem in enumerate(insc)] of the double check; the state is
    [findspot]. *)
Fixpoint double_check (frags : list str) (idx : Z) (findspot_i : option Z)
         (findspot : str) : str :=
  match frags with
  | [] => findspot
  | elem :: rest =>
      double_check rest (idx + 1) findspot_i
        (if str_eqb elem findspot && differs idx findspot_i
         then na else findspot)
  end.

(** [findspot == s] for a findspot that may be [None]. *)
Definition findspot_is (findspot : option str) (s : str) : bool :=
  match findspot with
  | Some f => str_eqb f s
  | None => false
  end.

Definition isnan (x : option Z) : bool :=
  match x with None => true | Some _ => false end.

(** What the body of [for insc in inscriptions] does with one
    inscription: [continue] without a record, or add one. *)
Inductive outcome : Type :=
| Skip
| Record_ (d : Data.t).

Definition extract (insc : list str) : result outcome :=
  let s := scan_loop insc 0 scan0 in
  match edcs_id s, edcs_id_i s with
  | Some id, Some k =>
      d <- get_dating insc k ;;
      let text_i := get_text_i s in
      match index insc text_i with
      | None => Raise IndexError
      | Some text =>
          let cleantext :=
            if negb (str_eqb text na) then Normalizer.get_cleantext text
            else na in
          fs <-
            (if contains (place s) (L "<!--") then
               Ok (get_findspot (place s), get_lat (place s),
                   get_long (place s), get_province (place s))
             else
               let province := search_province insc in
               if 1 <? len insc then
                 match index insc (text_i - 1) with
                 | None => Raise IndexError
                 | Some f =>
                     Ok (Some (double_check insc 0 (Some (text_i - 1)) f),
                         CNaN, CNaN, province)
                 end
               else
                 Ok (Some (double_check insc 0 None na),
                     CNaN, CNaN, province)) ;;
          let '(findspot0, find_lat, find_long, province) := fs in
          let findspot :=
            if findspot_is findspot0 (L "?") || findspot_is findspot0 []
            then Some na else findspot0 in
          if str_eqb (place s) na && str_eqb (keywords s) na
             && str_eqb (material s) na && findspot_is findspot na
             && str_eqb province na
             && isnan (time_from d) && isnan (time_to d)
          then Ok Skip
          else
            Ok (Record_
                  (Data.mk (publication d) id (time_from d) (time_to d)
                     province findspot find_lat find_long text cleantext
                     (keywords s) (material s) insc))
      end
  | _, _ => Ok Skip
  end.

(** [get_insc_dict]: the records in the order of their keys
    [0, 1, 2, ...]; an exception in one inscription ends the call. *)
Fixpoint get_insc_dict (inscriptions : list (list str))
  : result (list Data.t) :=
  match inscriptions with
  | [] => Ok []
  | insc :: rest =>
      o <- extract insc ;;
      all <- get_insc_dict rest ;;
      Ok (match o with Skip => all | Record_ d => d :: all end)
  end.

End Extractor.

(** ** ToponymGenerator ([get_toponyms] of [Find_Migrants.py]) *)

Module Toponyms.
Import Py.

(** [letter in vowels] with [vowels = "aeiou"]. *)
Definition is_vowel (c : ascii) : bool := contains (L "aeiou") [c].

(** [for index, letter in enumerate(reversed(location))]: the [index] of
    the first vowel met, if any. *)
Fixpoint first_vowel (reversed : str) (index : Z) : option Z :=
  match reversed with
  | [] => None
  | letter :: rest =>
      if is_vowel letter then Some index else first_vowel rest (index + 1)
  end.

(** [while location[i - 1] in vowels]: one candidate per turn.  [i - 1]
    falls by one at every turn and raises IndexError below
    [- len(location)], so [2 * len(location) + 1] turns are enough. *)
Fixpoint shorten (fuel : nat) (location : str) (i : Z)
         (toponym_list : list str) : result (list str) :=
  match fuel with
  | O => Ok toponym_list
  | S fuel' =>
      match index location (i - 1) with
      | None => Raise IndexError
      | Some c =>
          if is_vowel c
          then shorten fuel' location (i - 1)
                 (toponym_list ++ [slice location 0 (i - 1) ++ L "ensis"])
          else Ok toponym_list
      end
  end.

(** The body of [for location in locations]. *)
Definition word_toponyms (location : str) (toponym_list : list str)
  : result (list str) :=
  match first_vowel (rev location) 0 with
  | None => Ok toponym_list
  | Some index =>
      let i := len location - index - 1 in
      if i <=? 2 then Ok toponym_list
      else
        shorten (2 * length location + 1) location i
          (toponym_list ++ [slice location 0 i ++ L "ensis"])
  end.

Fixpoint words_toponyms (locations : list str) (toponym_list : list str)
  : result (list str) :=
  match locations with
  | [] => Ok toponym_list
  | location :: rest =>
      l <- word_toponyms location toponym_list ;;
      words_toponyms rest l
  end.

(** The cell written to the [toponyms] column for one [placenames]
    cell; a cell that is [None] is left as it is. *)
Definition row_toponyms (elem : option str) : result (option str) :=
  match elem with
  | None => Ok None
  | Some e =>
      l <- words_toponyms (split e) [] ;;
      Ok (Some (join (L ", ") l))
  end.

Fixpoint get_toponyms (placenames : list (option str))
  : result (list (option str)) :=
  match placenames with
  | [] => Ok []
  | elem :: rest =>
      t <- row_toponyms elem ;;
      ts <- get_toponyms rest ;;
      Ok (t :: ts)
  end.

End Toponyms.

(** ** ProvenanceMatcher ([search_toponyms] of [Find_Migrants.py]) *)

Module Matcher.
Import Py.

(** A row of the EDCS frame: the two columns the search reads; a
    [cleantext] cell that is not a string is [None].  The other columns
    are copied along with the row. *)
Record edcs_row : Type := mkEdcs {
  edcs_id : str;
  cleantext : option str
}.

(** A row of the Pleiades frame; a [toponyms] cell that is not a string
    is [None]. *)
Record toponym_row : Type := mkTop {
  toponyms : option str;
  title : str;
  reprLat : str;
  reprLong : str;
  reprLatLong : str;
  path : str;
  pid : str
}.

(** A row of the migrants frame: the copied EDCS row and the added
    columns; [migrant] is always set to 1. *)
Record migrant_row : Type := mkMigrant {
  source : edcs_row;
  origo : str;
  origo_lat : str;
  origo_long : str;
  origo_LatLong : str;
  m_path : str;
  m_pid : str;
  migrant : Z
}.

(** The list [tops] that [for top in tops] runs over for one row: empty
    when the row is skipped by [continue]. *)
Definition candidates (tops : option str) : list str :=
  match tops with
  | None => []
  | Some t =>
      if len t <? 6 then []
      else map strip (split_on "," t)
  end.

Definition make_migrant (r : edcs_row) (t : toponym_row) : migrant_row :=
  mkMigrant r (title t) (reprLat t) (reprLong t) (reprLatLong t)
            (path t) (pid t) 1.

(** [for i, text in enumerate(edcs['cleantext'])] for one [top]. *)
Fixpoint search_top (top : str) (t : toponym_row) (edcs : list edcs_row)
  : list migrant_row :=
  match edcs with
  | [] => []
  | r :: rest =>
      match cleantext r with
      | None => search_top top t rest
      | Some text =>
          if contains text top
          then make_migrant r t :: search_top top t rest
          else search_top top t rest
      end
  end.

Definition search_row (edcs : list edcs_row) (t : toponym_row)
  : list migrant_row :=
  flat_map (fun top => search_top top t edcs) (candidates (toponyms t)).

Definition same_key (a b : migrant_row) : bool :=
  str_eqb (edcs_id (source a)) (edcs_id (source b))
  && str_eqb (origo_LatLong a) (origo_LatLong b).

(** [drop_duplicates(subset=['edcs-id', 'origo_LatLong'])]: the first
    row of every key is kept. *)
Fixpoint drop_duplicates (seen rows : list migrant_row) : list migrant_row :=
  match rows with
  | [] => []
  | m :: rest =>
      if existsb (same_key m) seen then drop_duplicates seen rest
      else m :: drop_duplicates (m :: seen) rest
  end.

(** The rows appended by the loops, before [drop_duplicates]. *)
Definition matches (edcs : list edcs_row) (tops : list toponym_row)
  : list migrant_row :=
  flat_map (search_row edcs) tops.

Definition search_toponyms (edcs : list edcs_row) (tops : list toponym_row)
  : list migrant_row :=
  drop_duplicates [] (matches edcs tops).

End Matcher.

(** ** DuplicateResolver ([ignore_duplicates] of [Analyse_Inscriptions.py]) *)

Module Duplicates.
Import Py.

(** A row of the frame with its index label.  A cell that is NaN is
    [None] ([migrant] is 1 or not); distances are exact numbers of
    kilometres.  [ignore] is the column that [ignore_duplicates] creates
    and sets to 0 before its loop. *)
Record row : Type := mkRow {
  label : Z;
  Index : option Z;
  edcs_id : option str;
  migrant : bool;
  distance : option Z;
  ignore : Z
}.

Definition frame := list row.

(** The frame as read from the file: labels [0, 1, 2, ...]. *)
Fixpoint with_labels (rows : list (Z * str * bool * option Z)) (l : Z)
  : frame :=
  match rows with
  | [] => []
  | (ix, id, m, d) :: rest =>
      mkRow l (Some ix) (Some id) m d 0 :: with_labels rest (l + 1)
  end.

(** Order of strings by code points. *)
Fixpoint str_ltb (a b : str) : bool :=
  match a, b with
  | _, [] => false
  | [], _ :: _ => true
  | x :: a', y :: b' =>
      if (code x <? code y)%N then true
      else if (code y <? code x)%N then false
      else str_ltb a' b'
  end.

Definition id_ltb (a b : option str) : bool :=
  match a, b with
  | Some x, Some y => str_ltb x y
  | Some _, None => true
  | None, _ => false
  end.

Fixpoint insert_sorted (r : row) (f : frame) : frame :=
  match f with
  | [] => [r]
  | r' :: f' =>
      if negb (id_ltb (edcs_id r) (edcs_id r'))
      then r' :: insert_sorted r f'
      else r :: f
  end.

(** [sort_values(by='edcs-id')]: rows keep their labels and NaN
    identifiers go last.  Rows with the same identifier are kept in their
    order, as pandas leaves them in frames of up to 16 rows; in a larger
    frame its default sort may return them in another order, and what is
    stated below for frames of any size does not depend on that order. *)
Definition sort_values (f : frame) : frame :=
  fold_left (fun acc r => insert_sorted r acc) f [].

(** [edcs[col].iloc[p]]; [None] is IndexError. *)
Definition iloc (f : frame) (p : Z) : option row := index f p.

(** [a == b] on identifier cells; NaN equals nothing. *)
Definition id_eqb (a b : option str) : bool :=
  match a, b with
  | Some x, Some y => str_eqb x y
  | _, _ => false
  end.

(** The two [while] loops: [step] is -1 for the rows before [idx]
    and +1 for the rows after it; [n] is [i] or [j]. *)
Fixpoint neighbours (fuel : nat) (f : frame) (id : option str)
         (idx step n : Z) (indexes : list (option Z))
         (distances : list (option Z))
  : result (list (option Z) * list (option Z)) :=
  match fuel with
  | O => Ok (indexes, distances)
  | S fuel' =>
      match iloc f (idx + step * n) with
      | None => Raise IndexError
      | Some r =>
          if id_eqb id (edcs_id r)
          then neighbours fuel' f id idx step (n + 1)
                 (indexes ++ [Index r]) (distances ++ [distance r])
          else Ok (indexes, distances)
      end
  end.

(** [a < b] on distances; false when either is NaN. *)
Definition dist_ltb (a b : option Z) : bool :=
  match a, b with
  | Some x, Some y => x <? y
  | _, _ => false
  end.

(** [distances.index(min(distances))]: [min] keeps the first element
    that no later one is smaller than, and [index] finds that very
    object.  State: position and value of the current minimum. *)
Fixpoint argmin (l : list (option Z)) (pos : Z) (best_pos : Z)
         (best : option Z) : Z :=
  match l with
  | [] => best_pos
  | d :: rest =>
      if dist_ltb d best then argmin rest (pos + 1) pos d
      else argmin rest (pos + 1) best_pos best
  end.

Definition index_of_shortest (distances : list (option Z)) : Z :=
  match distances with
  | [] => 0
  | d :: rest => argmin rest 1 0 d
  end.

Definition has_label (l : Z) (f : frame) : bool :=
  existsb (fun r => label r =? l) f.

(** [edcs.at[l, 'ignore'] = 1]: sets the cell of the row labelled [l];
    a label that does not exist adds a row whose other cells are NaN. *)
Definition set_ignore (f : frame) (l : Z) : frame :=
  if has_label l f then
    map (fun r =>
           if label r =? l
           then mkRow (label r) (Index r) (edcs_id r) (migrant r)
                      (distance r) 1
           else r) f
  else f ++ [mkRow l None None false None 1].

(** [for i, v in enumerate(indexes): if i != index: edcs.at[i, 'ignore'] = 1]. *)
Fixpoint mark (indexes : list (option Z)) (i : Z) (index : Z) (f : frame)
  : frame :=
  match indexes with
  | [] => f
  | v :: rest =>
      mark rest (i + 1) index (if negb (i =? index) then set_ignore f i else f)
  end.

(** The body of [for idx, elem in edcs.iterrows()]. *)
Definition visit (f : frame) (elem : row) : result frame :=
  let idx := label elem in
  if migrant elem then
    let fuel := S (2 * length f) in
    before <- neighbours fuel f (edcs_id elem) idx (-1) 1
                [Index elem] [distance elem] ;;
    after <- neighbours fuel f (edcs_id elem) idx 1 1
               (fst before) (snd before) ;;
    let (indexes, distances) := after in
    if 1 <? len indexes
    then Ok (mark indexes 0 (index_of_shortest distances) f)
    else Ok f
  else Ok f.

(** [iterrows] runs over the rows as they were when the loop started. *)
Fixpoint visit_all (snapshot : list row) (f : frame) : result frame :=
  match snapshot with
  | [] => Ok f
  | elem :: rest =>
      f' <- visit f elem ;;
      visit_all rest f'
  end.

Definition ignore_duplicates (edcs : frame) : result frame :=
  let sorted := sort_values edcs in
  let f := map (fun r => mkRow (label r) (Index r) (edcs_id r) (migrant r)
                               (distance r) 0) sorted in
  visit_all f f.

End Duplicates.

(** ** Tags in place names ([no_tags] of [Find_Migrants.py]) *)

Module PlaceNames.
Import Py.

(** [s.replace(old, new)] for a non-empty [old]: the occurrences are
    replaced from left to right without overlap.  [skip] counts the
    characters of an occurrence that are still to be passed over. *)
Fixpoint replace_aux (old new s : str) (skip : nat) : str :=
  match s with
  | [] => []
  | c :: s' =>
      match skip with
      | S k => replace_aux old new s' k
      | O =>
          if startswith s old
          then new ++ replace_aux old new s' (length old - 1)
          else c :: replace_aux old new s' 0
      end
  end.

(** [s.replace(old, new)]; an empty [old] matches before every
    character and at the end. *)
Definition replace (s old new : str) : str :=
  match old with
  | [] => new ++ flat_map (fun c => c :: new) s
  | _ :: _ => replace_aux old new s 0
  end.

(** The [while opening != -1] loop of [no_tags].  The loop has no bound of
    its own: [None] says that it has not ended after [fuel] turns. *)
Fixpoint no_tags_loop (fuel : nat) (elem : str) (opening : Z) : option str :=
  if opening =? -1 then Some elem
  else
    match fuel with
    | O => None
    | S fuel' =>
        let closing := find elem (L ">") 0 in
        let remove := slice elem opening (closing + 1) in
        let elem' := replace elem remove [] in
        no_tags_loop fuel' elem' (find elem' (L "<") 0)
    end.

Definition no_tags (fuel : nat) (elem : str) : option str :=
  no_tags_loop fuel elem (find elem (L "<") 0).

End PlaceNames.

(** ** Inputs and predicates used in the statements below *)

(** A digit, a full stop or a minus sign. *)
Definition coord_char (c : ascii) : bool :=
  Py.isdecimal c || Ascii.eqb c "." || Ascii.eqb c "-".

Definition fragments_with_separator : list str :=
  [L "CIL 06, 00001"; L "Roma | Ostia"; L "D M"].

(** The fragment list of the rule-table example: the identifier is at
    position 3. *)
Definition fragments_vir : list str :=
  [L "PubX"; L "120"; L "180"; L "EDCS-000001"; L "someword"; L "vir"].

(** The same with the keyword term of [keyword_list]. *)
Definition fragments_viri : list str :=
  [L "PubX"; L "120"; L "180"; L "EDCS-000001"; L "someword"; L "viri"].

(** Identifier at position 3, first date not a number. *)
Definition fragments_bad_date : list str :=
  [L "PubX"; L "abc"; L "180"; L "EDCS-000001"; L "someword"; L "viri"].

(** Identifier at position 5, four date fragments. *)
Definition fragments_four_dates : list str :=
  [L "PubX"; L "100"; L "150"; L "120"; L "180"; L "EDCS-000001";
   L "someword"; L "viri"].

(** Three rows with identifier ["X"], all migrants, distances 50, 12 and
    30, as the frame is read from the file. *)
Definition three_duplicates : Duplicates.frame :=
  Duplicates.with_labels
    [(0, L "X", true, Some 50); (1, L "X", true, Some 12);
     (2, L "X", true, Some 30)] 0.

(** The same three rows followed by a row with another identifier. *)
Definition three_duplicates_and_other : Duplicates.frame :=
  Duplicates.with_labels
    [(0, L "X", true, Some 50); (1, L "X", true, Some 12);
     (2, L "X", true, Some 30); (3, L "Z", false, None)] 0.

Definition record_natus : Matcher.edcs_row :=
  Matcher.mkEdcs (L "EDCS-000001") (Some (L "natus Narbensis")).

Definition place_short_candidate : Matcher.toponym_row :=
  Matcher.mkTop (Some (L "Romensis, ensis")) (L "Roma") (L "41.9")
                (L "12.5") (L "41.9,12.5") (L "/places/423025") (L "423025").

Definition place_short_cell : Matcher.toponym_row :=
  Matcher.mkTop (Some (L "ensis")) (L "Roma") (L "41.9")
                (L "12.5") (L "41.9,12.5") (L "/places/423025") (L "423025").

(** The cell test of [search_toponyms]. *)
Definition cell_is_searched (t : Matcher.toponym_row) : bool :=
  match Matcher.toponyms t with
  | None => false
  | Some s => negb (len s <? 6)
  end.

(** The ignore column of a frame, by label. *)
Definition ignored (f : Duplicates.frame) : list (Z * Z) :=
  map (fun r => (Duplicates.label r, Duplicates.ignore r)) f.

(** Words: non-empty and free of whitespace. *)
Definition is_word (w : str) : Prop :=
  w <> [] /\ existsb Py.isspace w = false.

(** Kept by the filter of [get_cleantext] without the help of
    [missing]. *)
Definition plain (c : ascii) : bool := Py.isspace c || Py.isalpha c.

(** The position, counted from [i], of the first fragment that starts with
    ["EDCS-"]. *)
Fixpoint first_identifier (frags : list str) (i : Z) : option Z :=
  match frags with
  | [] => None
  | frag :: rest =>
      if str_eqb (Py.slice frag 0 5) (L "EDCS-") then Some i
      else first_identifier rest (i + 1)
  end.

(** ** Predicates for the further properties *)

(** A character that [get_lat] and [get_long] collect. *)
Definition collected (c : ascii) : bool :=
  Py.isnumeric c || Ascii.eqb c "." || Ascii.eqb c "-".

(** A character that [get_province] collects. *)
Definition province_char (c : ascii) : bool :=
  Findspot.isalnum c || Py.isspace c || Ascii.eqb c "/".

(** The test that makes [search_province] return a fragment. *)
Definition fragment_matches (elem : str) : bool :=
  Py.mem elem Findspot.province_list
  || (Py.contains elem (L "|") && Findspot.part_matches elem).

(** The test of the first loop of [get_insc_dict] for an identifier. *)
Definition is_identifier (frag : str) : bool :=
  str_eqb (Py.slice frag 0 5) (L "EDCS-").

(** The tests of the first loop that a fragment of no interest fails. *)
Definition plain_fragment (frag : str) : bool :=
  negb (is_identifier frag)
  && negb (str_eqb (Py.slice frag 0 4) (L "<!--"))
  && negb (Py.mem frag Extractor.keyword_list)
  && negb (Py.mem frag Extractor.material_list)
  && negb (Py.contains frag (L ";")).

(** Inscriptions with an identifier at position 2, at position 1, and at
    position 5 without any number before it. *)
Definition fragments_id_at_2 : list str :=
  [L "CIL 06, 00001"; L "Roma"; L "EDCS-000002"; L "D M"; L "viri"].

Definition fragments_id_at_1 : list str :=
  [L "CIL 06, 00001"; L "EDCS-000003"; L "Roma"; L "D M"; L "viri"].

Definition fragments_no_numbers : list str :=
  [L "PubX"; L "a"; L "b"; L "c"; L "d"; L "EDCS-000004"; L "D M"; L "viri"].

(** A candidate made from a prefix of the word. *)
Definition candidate_of (location c : str) : Prop :=
  exists j, c = Py.slice location 0 j ++ L "ensis".

(** The key of [drop_duplicates] in [search_toponyms]. *)
Definition migrant_key (m : Matcher.migrant_row) : str * str :=
  (Matcher.edcs_id (Matcher.source m), Matcher.origo_LatLong m).

(** A cell that ends with a comma. *)
Definition place_trailing_comma : Matcher.toponym_row :=
  Matcher.mkTop (Some (L "Romensis,")) (L "Roma") (L "41.9")
                (L "12.5") (L "41.9,12.5") (L "/places/423025") (L "423025").

(** The row with its [ignore] cell set to 0, as [edcs['ignore'] = 0]
    leaves it. *)
Definition reset_ignore (r : Duplicates.row) : Duplicates.row :=
  Duplicates.mkRow (Duplicates.label r) (Duplicates.Index r)
    (Duplicates.edcs_id r) (Duplicates.migrant r) (Duplicates.distance r) 0.

(** The loop of [ignore_duplicates] on the rows in the order in which
    [sort_values] has left them. *)
Definition duplicates_loop (sorted : Duplicates.frame)
  : result Duplicates.frame :=
  let f := map reset_ignore sorted in
  Duplicates.visit_all f f.

(** A frame without migrants. *)
Definition frame_without_migrants : Duplicates.frame :=
  Duplicates.with_labels
    [(0, L "B", false, None); (1, L "A", false, Some 25);
     (2, L "B", false, None)] 0.

(** * Properties *)

(** ** The loops end by their own condition

    The [while] loops are modelled with a bound on the number of turns.
    The lemmas of this section show that the bound given at each call is
    never what ends the loop: more turns change nothing. *)

Section LoopBounds.
Import Py.

Lemma find_from_eq (sub s : str) (pos : Z) :
  find_from sub s pos =
  if startswith s sub then pos
  else match s with
       | [] => -1
       | _ :: s' => find_from sub s' (pos + 1)
       end.
Proof. destruct s; reflexivity. Qed.

Lemma find_from_range (sub s : str) :
  forall pos,
    find_from sub s pos = -1 \/ pos <= find_from sub s pos.
Proof.
  induction s as [|c s IH]; intros pos; rewrite find_from_eq.
  - destruct (startswith [] sub); [right; lia|left; reflexivity].
  - destruct (startswith (c :: s) sub); [right; lia|].
    destruct (IH (pos + 1)) as [H|H]; [left; exact H|right; lia].
Qed.

Lemma find_range (text sub : str) (start : Z) :
  find text sub start = -1 \/ start <= find text sub start.
Proof. unfold find. apply find_from_range. Qed.

Lemma correct_scan_fuel (n : nat) :
  forall text o m,
    o = -1 \/ len text - o <= Z.of_nat n ->
    Normalizer.correct_scan (n + m) text o = Normalizer.correct_scan n text o.
Proof.
  induction n as [|n IH]; intros text o m H.
  - destruct m as [|m]; [reflexivity|]. simpl.
    destruct (Z.eqb_spec o (-1)); [reflexivity|].
    destruct (Z.ltb_spec (o + 1) (len text)); [lia|reflexivity].
  - cbn [Nat.add Normalizer.correct_scan].
    destruct (Z.eqb_spec o (-1)); [reflexivity|].
    destruct (Z.ltb_spec (o + 1) (len text)); [|reflexivity].
    cbn [negb andb]. f_equal. apply IH.
    destruct (find_range text (L "<") (o + 1)) as [E|E]; [left; exact E|].
    right. lia.
Qed.

Lemma superficial_scan_fuel (n : nat) :
  forall text o m,
    o = -1 \/ len text - o <= Z.of_nat n ->
    Normalizer.superficial_scan (n + m) text o
    = Normalizer.superficial_scan n text o.
Proof.
  induction n as [|n IH]; intros text o m H.
  - destruct m as [|m]; [reflexivity|]. simpl.
    destruct (Z.eqb_spec o (-1)); [reflexivity|].
    destruct (Z.ltb_spec (o + 1) (len text)); [lia|reflexivity].
  - cbn [Nat.add Normalizer.superficial_scan].
    destruct (Z.eqb_spec o (-1)); [reflexivity|].
    destruct (Z.ltb_spec (o + 1) (len text)); [|reflexivity].
    cbn [negb andb]. f_equal. apply IH.
    destruct (find_range text (L "{") (o + 1)) as [E|E]; [left; exact E|].
    right. lia.
Qed.

(** The scans of [correct_text] and [remove_superficial_letters] with
    any larger bound. *)
Lemma correct_text_scan_complete (text : str) (m : nat) :
  Normalizer.correct_scan (length text + m) text (find text (L "<") 0)
  = Normalizer.correct_scan (length text) text (find text (L "<") 0).
Proof.
  apply correct_scan_fuel.
  destruct (find_range text (L "<") 0) as [E|E]; [left; exact E|].
  right. unfold len. lia.
Qed.

Lemma remove_superficial_scan_complete (text : str) (m : nat) :
  Normalizer.superficial_scan (length text + m) text (find text (L "{") 0)
  = Normalizer.superficial_scan (length text) text (find text (L "{") 0).
Proof.
  apply superficial_scan_fuel.
  destruct (find_range text (L "{") 0) as [E|E]; [left; exact E|].
  right. unfold len. lia.
Qed.

Lemma index_in_range {A : Type} (l : list A) (i : Z) (x : A) :
  index l i = Some x -> - len l <= i < len l.
Proof.
  unfold index, len.
  destruct (Z.leb_spec 0 i) as [Hi|Hi].
  - intros E. assert (Hn : nth_error l (Z.to_nat i) <> None) by congruence.
    apply nth_error_Some in Hn. lia.
  - destruct (Z.leb_spec (- Z.of_nat (length l)) i) as [Hl|Hl]; [|discriminate].
    intros _. lia.
Qed.

Lemma shorten_fuel (n : nat) :
  forall location i l m,
    (1 <= n)%nat -> i + len location + 1 <= Z.of_nat n ->
    Toponyms.shorten (n + m) location i l = Toponyms.shorten n location i l.
Proof.
  induction n as [|n IH]; intros location i l m H1 H; [lia|].
  simpl.
  destruct (index location (i - 1)) as [c|] eqn:E; [|reflexivity].
  destruct (Toponyms.is_vowel c); [|reflexivity].
  apply index_in_range in E.
  apply IH; lia.
Qed.

(** The bound given by [word_toponyms] is enough for every index below the
    length of the word. *)
Lemma word_toponyms_shorten_complete (location : str) (i : Z)
      (l : list str) (m : nat) :
  i < len location ->
  Toponyms.shorten (2 * length location + 1 + m) location i l
  = Toponyms.shorten (2 * length location + 1) location i l.
Proof.
  intros H. apply shorten_fuel; unfold len in *; lia.
Qed.

Lemma neighbours_fuel (n : nat) :
  forall f id idx step k ixs ds m,
    (step = 1 \/ step = -1) ->
    (1 <= n)%nat ->
    (step = 1 -> len f - (idx + k) + 1 <= Z.of_nat n) ->
    (step = -1 -> (idx - k) + len f + 2 <= Z.of_nat n) ->
    Duplicates.neighbours (n + m) f id idx step k ixs ds
    = Duplicates.neighbours n f id idx step k ixs ds.
Proof.
  induction n as [|n IH]; intros f id idx step k ixs ds m Hs H1 Hup Hdown;
    [lia|].
  simpl. unfold Duplicates.iloc.
  destruct (index f (idx + step * k)) as [r|] eqn:E; [|reflexivity].
  destruct (Duplicates.id_eqb id (Duplicates.edcs_id r)); [|reflexivity].
  apply index_in_range in E.
  apply IH; try assumption.
  - destruct Hs as [->| ->].
    + specialize (Hup eq_refl). lia.
    + specialize (Hdown eq_refl). lia.
  - intros ->. specialize (Hup eq_refl). lia.
  - intros ->. specialize (Hdown eq_refl). lia.
Qed.

End LoopBounds.

(** ** Findspot readers *)

Section CoordinateReaders.
Import Py Findspot.

Lemma coord_char_collected (c : ascii) :
  coord_char c = true ->
  isnumeric c || Ascii.eqb c "." || Ascii.eqb c "-" = true.
Proof.
  unfold coord_char, isnumeric.
  destruct (isdecimal c); simpl; [reflexivity|].
  intros H. apply orb_true_iff in H. destruct H as [H|H]; rewrite H.
  - rewrite orb_true_r. reflexivity.
  - rewrite orb_true_r. reflexivity.
Qed.

(** The reading loop never returns from inside when every character is
    collected. *)
Lemma read_coord_runs_off (rest : str) :
  forall result,
    (forall c, In c rest -> coord_char c = true) ->
    read_coord rest result = CNone.
Proof.
  induction rest as [|c rest IH]; intros result Hall; simpl.
  - reflexivity.
  - rewrite (coord_char_collected c (Hall c (or_introl eq_refl))).
    apply IH. intros c' Hin. apply Hall. right. exact Hin.
Qed.

(** C9: when the latitude tag is present and only digits, full stops and
    minus signs follow it up to the end of the string, [get_lat] returns
    [None], not a float and not NaN; the same holds for [get_long] and the
    longitude tag. *)
Theorem get_lat_long_none_at_end_of_string (place : str) :
  (find place (L "latitude=") 0 <> -1 ->
   (forall c,
       In c (skipn (Z.to_nat (find place (L "latitude=") 0 + 9)) place) ->
       coord_char c = true) ->
   get_lat place = CNone)
  /\
  (find place (L "longitude=") 0 <> -1 ->
   (forall c,
       In c (skipn (Z.to_nat (find place (L "longitude=") 0 + 10)) place) ->
       coord_char c = true) ->
   get_long place = CNone).
Proof.
  split; intros Htag Hall.
  - unfold get_lat.
    destruct (Z.eqb_spec (find place (L "latitude=") 0) (-1)) as [E|_];
      [contradiction|].
    apply read_coord_runs_off. exact Hall.
  - unfold get_long.
    destruct (Z.eqb_spec (find place (L "longitude=") 0) (-1)) as [E|_];
      [contradiction|].
    apply read_coord_runs_off. exact Hall.
Qed.

Ltac in_cases H :=
  repeat (destruct H as [H|H]; [subst; reflexivity|]); destruct H.

Lemma get_lat_long_none_at_end_of_string_witness :
  get_lat (L "<!-- latitude=41.9") = CNone
  /\ get_long (L "<!-- longitude=-3.70") = CNone.
Proof.
  split.
  - apply (proj1 (get_lat_long_none_at_end_of_string (L "<!-- latitude=41.9"))).
    + vm_compute. discriminate.
    + intros c H. vm_compute in H. in_cases H.
  - apply (proj2 (get_lat_long_none_at_end_of_string (L "<!-- longitude=-3.70"))).
    + vm_compute. discriminate.
    + intros c H. vm_compute in H. in_cases H.
Defined.

End CoordinateReaders.

(** ** Province lookup *)

Section ProvinceLookup.
Import Py Findspot.

Lemma part_matches_spec (elem : str) :
  part_matches elem = true <->
  exists part, In part (split_on "|" elem)
               /\ mem (strip part) province_list = true.
Proof.
  unfold part_matches. rewrite existsb_exists. reflexivity.
Qed.

Lemma search_province_cons (elem : str) (rest : list str) :
  search_province (elem :: rest) =
  if mem elem province_list then elem
  else if contains elem (L "|") then
         if part_matches elem then elem else search_province rest
       else search_province rest.
Proof. reflexivity. Qed.

(** The fragment returned through the separator branch. *)
Lemma search_province_separator (insc : list str) :
  (forall e, In e insc -> mem e province_list = false) ->
  (exists e, In e insc /\ contains e (L "|") = true
             /\ part_matches e = true) ->
  In (search_province insc) insc
  /\ contains (search_province insc) (L "|") = true
  /\ part_matches (search_province insc) = true.
Proof.
  induction insc as [|elem rest IH]; intros Hno [e [Hin [Hsep Hpart]]].
  - destruct Hin.
  - rewrite search_province_cons, (Hno elem (or_introl eq_refl)).
    destruct (contains elem (L "|")) eqn:Esep.
    + destruct (part_matches elem) eqn:Epart.
      * repeat split; auto. left. reflexivity.
      * destruct Hin as [->|Hin]; [congruence|].
        destruct IH as [H1 [H2 H3]].
        -- intros e' He'. apply Hno. right. exact He'.
        -- exists e. auto.
        -- repeat split; auto. right. exact H1.
    + destruct Hin as [->|Hin]; [congruence|].
      destruct IH as [H1 [H2 H3]].
      * intros e' He'. apply Hno. right. exact He'.
      * exists e. auto.
      * repeat split; auto. right. exact H1.
Qed.

(** C10: when no fragment is a province name but some fragment has a
    ["|"]-separated part that is one after stripping, [search_province]
    returns a whole fragment of the inscription: it contains the
    separator, one of its parts matches, and it differs from every
    stripped matching part. *)
Theorem search_province_returns_whole_fragment (insc : list str) :
  (forall e, In e insc -> mem e province_list = false) ->
  (exists e part,
      In e insc /\ contains e (L "|") = true
      /\ In part (split_on "|" e)
      /\ mem (strip part) province_list = true) ->
  In (search_province insc) insc
  /\ contains (search_province insc) (L "|") = true
  /\ (exists part,
         In part (split_on "|" (search_province insc))
         /\ mem (strip part) province_list = true)
  /\ (forall part,
         mem (strip part) province_list = true ->
         search_province insc <> strip part).
Proof.
  intros Hno [e [part [Hin [Hsep [Hpart Hmem]]]]].
  destruct (search_province_separator insc Hno) as [H1 [H2 H3]].
  - exists e. repeat split; auto.
    apply part_matches_spec. exists part. auto.
  - repeat split; auto.
    + apply part_matches_spec. exact H3.
    + intros p Hp Heq. rewrite <- Heq in Hp.
      rewrite (Hno _ H1) in Hp. discriminate.
Qed.

Lemma search_province_returns_whole_fragment_witness :
  In (search_province fragments_with_separator) fragments_with_separator
  /\ contains (search_province fragments_with_separator) (L "|") = true
  /\ (exists part,
         In part (split_on "|" (search_province fragments_with_separator))
         /\ mem (strip part) province_list = true)
  /\ (forall part,
         mem (strip part) province_list = true ->
         search_province fragments_with_separator <> strip part).
Proof.
  apply (search_province_returns_whole_fragment fragments_with_separator).
  - intros e He. simpl in He.
    destruct He as [<-|[<-|[<-|[]]]]; vm_compute; reflexivity.
  - exists (L "Roma | Ostia"), (L "Roma ").
    repeat split; vm_compute; auto.
Defined.

End ProvinceLookup.

(** ** Integer parsing and whitespace *)

Section IntAndWhitespace.
Import Py.

Lemma decimal_not_space (c : ascii) : isdecimal c = true -> isspace c = false.
Proof.
  destruct c as [[] [] [] [] [] [] [] []]; vm_compute; congruence.
Qed.

Lemma underscore_not_space (c : ascii) :
  Ascii.eqb c "_" = true -> isspace c = false.
Proof.
  intros H. apply Ascii.eqb_eq in H. subst c. reflexivity.
Qed.

(** A literal with a whitespace character in it is rejected. *)
Lemma digits_space (s : str) :
  forall acc b, existsb isspace s = true -> digits s acc b = None.
Proof.
  induction s as [|c s IH]; intros acc b H; simpl in *.
  - discriminate.
  - destruct (isdecimal c) eqn:Ed.
    + rewrite (decimal_not_space c Ed) in H. apply IH. exact H.
    + destruct (Ascii.eqb c "_" && b) eqn:Eu; [|reflexivity].
      apply andb_true_iff in Eu. destruct Eu as [Eu _].
      rewrite (underscore_not_space c Eu) in H. apply IH. exact H.
Qed.

Lemma lstrip_cons_space (c : ascii) (s : str) :
  isspace c = true -> lstrip (c :: s) = lstrip s.
Proof. intros H. simpl. rewrite H. reflexivity. Qed.

Lemma lstrip_cons_word (c : ascii) (s : str) :
  isspace c = false -> lstrip (c :: s) = c :: s.
Proof. intros H. simpl. rewrite H. reflexivity. Qed.

Lemma rstrip_snoc (s : str) (c : ascii) :
  rstrip (s ++ [c]) = if isspace c then rstrip s else s ++ [c].
Proof.
  unfold rstrip. rewrite rev_app_distr. simpl.
  destruct (isspace c); [reflexivity|].
  simpl. rewrite rev_involutive. reflexivity.
Qed.

Lemma rstrip_cons (c : ascii) (s : str) :
  rstrip (c :: s) =
  match rstrip s with
  | [] => if isspace c then [] else [c]
  | _ :: _ => c :: rstrip s
  end.
Proof.
  induction s as [|x s IH] using rev_ind.
  - unfold rstrip. simpl. destruct (isspace c); reflexivity.
  - rewrite app_comm_cons, !rstrip_snoc.
    destruct (isspace x); [exact IH|].
    rewrite <- app_comm_cons.
    destruct (s ++ [x]) eqn:E; [|reflexivity].
    destruct s; discriminate.
Qed.

(** What [rstrip] leaves, read off the words of the string. *)
Lemma rstrip_split_aux (s : str) :
  forall w ws,
    split_aux s = (w, ws) ->
    (ws = [] -> rstrip s = w)
    /\ (ws <> [] -> existsb isspace (rstrip s) = true).
Proof.
  induction s as [|c s IH]; intros w ws H.
  - inversion H. split; [reflexivity|congruence].
  - simpl in H. destruct (split_aux s) as [w' ws'] eqn:E.
    destruct (IH w' ws' eq_refl) as [IH1 IH2].
    rewrite rstrip_cons.
    destruct (isspace c) eqn:Ec; inversion H; subst; clear H.
    + split.
      * intros Hnil. destruct w'; [|discriminate].
        rewrite (IH1 Hnil). reflexivity.
      * intros Hne. destruct ws' as [|w2 ws2].
        -- destruct w' as [|x w']; [congruence|].
           rewrite (IH1 eq_refl). simpl. rewrite Ec. reflexivity.
        -- assert (Hs : existsb isspace (rstrip s) = true)
             by (apply IH2; discriminate).
           destruct (rstrip s); [discriminate|].
           simpl. rewrite Ec. reflexivity.
    + split.
      * intros Hnil. rewrite (IH1 Hnil).
        destruct w'; reflexivity.
      * intros Hne.
        assert (Hs : existsb isspace (rstrip s) = true) by (apply IH2; exact Hne).
        destruct (rstrip s) eqn:Er; [discriminate|].
        simpl. rewrite Ec. exact Hs.
Qed.

(** [strip] read off the words of the string. *)
Lemma strip_split (s : str) :
  match split s with
  | [] => strip s = []
  | [w] => strip s = w
  | _ :: _ :: _ =>
      exists c r, strip s = c :: r /\ isspace c = false
                  /\ existsb isspace r = true
  end.
Proof.
  induction s as [|c s IH].
  - reflexivity.
  - unfold split, strip in *. simpl.
    destruct (split_aux s) as [w ws] eqn:E.
    destruct (isspace c) eqn:Ec.
    + exact IH.
    + destruct (rstrip_split_aux s w ws E) as [H1 H2].
      rewrite rstrip_cons.
      destruct ws as [|w2 ws2].
      * rewrite (H1 eq_refl). destruct w; [rewrite Ec|]; reflexivity.
      * assert (Hs : existsb isspace (rstrip s) = true)
          by (apply H2; discriminate).
        destruct (rstrip s) eqn:Er; [discriminate|].
        exists c. eexists. repeat split; [exact Ec|exact Hs].
Qed.

Lemma split_aux_words (s : str) :
  forall w ws,
    split_aux s = (w, ws) ->
    existsb isspace w = false /\ Forall is_word ws.
Proof.
  induction s as [|c s IH]; intros w ws H.
  - inversion H. split; [reflexivity|constructor].
  - simpl in H. destruct (split_aux s) as [w' ws'] eqn:E.
    destruct (IH w' ws' eq_refl) as [Hw Hws].
    destruct (isspace c) eqn:Ec; inversion H; subst; clear H.
    + split; [reflexivity|].
      destruct w'; [exact Hws|].
      constructor; [split; [discriminate|exact Hw]|exact Hws].
    + split; [simpl; rewrite Ec; exact Hw|exact Hws].
Qed.

Lemma split_words (s : str) : Forall is_word (split s).
Proof.
  unfold split. destruct (split_aux s) as [w ws] eqn:E.
  destruct (split_aux_words s w ws E) as [Hw Hws].
  destruct w; [exact Hws|].
  constructor; [split; [discriminate|exact Hw]|exact Hws].
Qed.

Lemma split_aux_app_word (w x : str) :
  existsb isspace w = false ->
  split_aux (w ++ x) = (w ++ fst (split_aux x), snd (split_aux x)).
Proof.
  induction w as [|c w IH]; intros H; simpl.
  - destruct (split_aux x); reflexivity.
  - simpl in H. apply orb_false_iff in H. destruct H as [Hc Hw].
    rewrite (IH Hw), Hc. reflexivity.
Qed.

(** Splitting the joined words gives the words back. *)
Lemma split_join (ws : list str) :
  Forall is_word ws -> split (join (L " ") ws) = ws.
Proof.
  induction ws as [|w ws IH]; intros H.
  - reflexivity.
  - inversion H as [|? ? [Hne Hw] Hws]; subst.
    destruct ws as [|w2 ws].
    + simpl. unfold split.
      pose proof (split_aux_app_word w [] Hw) as E.
      cbn [split_aux fst snd] in E. rewrite !app_nil_r in E. rewrite E.
      destruct w; [congruence|reflexivity].
    + change (join (L " ") (w :: w2 :: ws))
        with (w ++ L " " ++ join (L " ") (w2 :: ws)).
      unfold split. rewrite (split_aux_app_word w _ Hw).
      specialize (IH Hws). unfold split in IH.
      change (L " " ++ join (L " ") (w2 :: ws))
        with (" "%char :: join (L " ") (w2 :: ws)).
      cbn [split_aux].
      destruct (split_aux (join (L " ") (w2 :: ws))) as [w' ws'] eqn:E.
      change (isspace " ") with true. cbn [fst snd].
      rewrite app_nil_r.
      destruct w as [|c w]; [congruence|].
      f_equal. exact IH.
Qed.

Lemma int_space_isspace (c : ascii) : int_space c = true -> isspace c = true.
Proof.
  destruct c as [[] [] [] [] [] [] [] []]; vm_compute; congruence.
Qed.

Lemma digits_no_space (s : str) (acc : Z) (b : bool) (v : Z) :
  digits s acc b = Some v -> existsb isspace s = false.
Proof.
  intros H. destruct (existsb isspace s) eqn:E; [|reflexivity].
  rewrite (digits_space s acc b E) in H. discriminate.
Qed.

(** A literal that [int] accepts holds no whitespace of any kind. *)
Lemma int_literal_no_space (w : str) (a : Z) :
  int_literal w = Some a -> existsb isspace w = false.
Proof.
  destruct w as [|c r]; [discriminate|]. unfold int_literal.
  destruct (Ascii.eqb_spec c "+") as [->|Hp].
  - intros H. simpl. exact (digits_no_space r 0 false a H).
  - destruct (Ascii.eqb_spec c "-") as [->|Hm].
    + destruct (digits r 0 false) as [v|] eqn:E; [|discriminate].
      intros _. simpl. exact (digits_no_space r 0 false v E).
    + intros H. exact (digits_no_space (c :: r) 0 false a H).
Qed.

Lemma int_lstrip_prefix (s : str) :
  exists l, s = l ++ int_lstrip s /\ forallb isspace l = true.
Proof.
  induction s as [|c s [l [Hs Hl]]].
  - exists []. split; reflexivity.
  - simpl. destruct (int_space c) eqn:Ec.
    + exists (c :: l). split; [simpl; rewrite <- Hs; reflexivity|].
      simpl. rewrite (int_space_isspace c Ec). exact Hl.
    + exists []. split; reflexivity.
Qed.

Lemma forallb_rev (p : ascii -> bool) (l : str) :
  forallb p l = true -> forallb p (rev l) = true.
Proof.
  rewrite !forallb_forall. intros H x Hx. apply H. apply in_rev. exact Hx.
Qed.

Lemma existsb_rev_false (p : ascii -> bool) (l : str) :
  existsb p l = false -> existsb p (rev l) = false.
Proof.
  intros H. apply not_true_is_false. intros E.
  apply existsb_exists in E. destruct E as [x [Hx Hp]].
  apply in_rev in Hx.
  assert (existsb p l = true) by (apply existsb_exists; eauto). congruence.
Qed.

(** What [int] strips lies around the kept part and is whitespace for
    [str.split] too. *)
Lemma int_strip_around (s : str) :
  exists l r,
    s = l ++ int_strip s ++ r
    /\ forallb isspace l = true /\ forallb isspace r = true.
Proof.
  destruct (int_lstrip_prefix s) as [l [Hs Hl]].
  destruct (int_lstrip_prefix (rev (int_lstrip s))) as [r [Hr Hrs]].
  exists l, (rev r). split; [|split; [exact Hl|apply forallb_rev; exact Hrs]].
  unfold int_strip. rewrite <- rev_app_distr, <- Hr, rev_involutive.
  exact Hs.
Qed.

Lemma int_lstrip_word (t : str) :
  existsb isspace t = false -> int_lstrip t = t.
Proof.
  destruct t as [|c t]; [reflexivity|]. simpl. intros H.
  apply orb_false_iff in H. destruct H as [Hc _].
  destruct (int_space c) eqn:E; [|reflexivity].
  rewrite (int_space_isspace c E) in Hc. discriminate.
Qed.

Lemma int_strip_word (t : str) :
  existsb isspace t = false -> int_strip t = t.
Proof.
  intros H. unfold int_strip. rewrite (int_lstrip_word t H).
  rewrite (int_lstrip_word (rev t) (existsb_rev_false _ _ H)).
  apply rev_involutive.
Qed.

Lemma split_spaces_front (l x : str) :
  forallb isspace l = true -> split (l ++ x) = split x.
Proof.
  induction l as [|c l IH]; intros H; [reflexivity|].
  simpl in H. apply andb_true_iff in H. destruct H as [Hc Hl].
  rewrite <- (IH Hl). unfold split. simpl.
  destruct (split_aux (l ++ x)) as [w ws]. rewrite Hc. reflexivity.
Qed.

Lemma split_aux_spaces (r : str) :
  forallb isspace r = true -> split_aux r = ([], []).
Proof.
  induction r as [|c r IH]; intros H; [reflexivity|].
  simpl in H. apply andb_true_iff in H. destruct H as [Hc Hr].
  simpl. rewrite (IH Hr), Hc. reflexivity.
Qed.

Lemma split_word_spaces (t r : str) :
  is_word t -> forallb isspace r = true -> split (t ++ r) = [t].
Proof.
  intros [Hne Hw] Hr. unfold split.
  rewrite (split_aux_app_word t r Hw), (split_aux_spaces r Hr).
  cbn [fst snd]. rewrite app_nil_r.
  destruct t; [congruence|reflexivity].
Qed.

(** A string that [int] accepts is one word between whitespace, and
    [int] gives the same number for the string with its whitespace
    squeezed. *)
Lemma int_accepts_squeezed (s : str) (a : Z) :
  int s = Some a -> int (join (L " ") (split s)) = Some a.
Proof.
  unfold int at 1. intros H.
  pose proof (int_literal_no_space _ _ H) as Hns.
  assert (Hne : int_strip s <> []) by (intros E; rewrite E in H; discriminate).
  destruct (int_strip_around s) as [l [r [Hs [Hl Hr]]]].
  assert (Hsplit : split s = [int_strip s]).
  { rewrite Hs at 1. rewrite (split_spaces_front l _ Hl).
    apply split_word_spaces; [split; assumption|exact Hr]. }
  rewrite Hsplit. cbn [join]. unfold int.
  rewrite (int_strip_word _ Hns). exact H.
Qed.

End IntAndWhitespace.

(** ** The identifier found by the first loop *)

Section IdentifierPosition.
Import Py Extractor.

Lemma scan_elements_id (all elems : list str) (i : Z) :
  forall s,
    edcs_id (scan_elements all elems i s) = edcs_id s
    /\ edcs_id_i (scan_elements all elems i s) = edcs_id_i s.
Proof.
  induction elems as [|elem rest IH]; intros s; cbn [scan_elements].
  - split; reflexivity.
  - destruct (mem elem keyword_list).
    + destruct (IH (set_keywords s (join (L ", ") all) i)) as [H1 H2].
      rewrite H1, H2. split; reflexivity.
    + destruct (mem elem material_list).
      * destruct (IH (set_material s (join (L ", ") all) i)) as [H1 H2].
        rewrite H1, H2. split; reflexivity.
      * apply IH.
Qed.

(** Once the identifier is known, no later fragment replaces it. *)
Lemma scan_step_known (s : scan) (frag id : str) (i : Z) :
  edcs_id s = Some id ->
  edcs_id (scan_step s frag i) = Some id
  /\ edcs_id_i (scan_step s frag i) = edcs_id_i s.
Proof.
  intros H. unfold scan_step. rewrite H. cbn [andb].
  destruct (str_eqb (slice frag 0 4) (L "<!--")); [split; [exact H|reflexivity]|].
  destruct (mem frag keyword_list); [split; [exact H|reflexivity]|].
  destruct (mem frag material_list); [split; [exact H|reflexivity]|].
  destruct (contains frag (L ";")); [|split; [exact H|reflexivity]].
  destruct (scan_elements_id (split_on ";" frag) (split_on ";" frag) i s)
    as [H1 H2].
  rewrite H1, H2. split; [exact H|reflexivity].
Qed.

Lemma scan_loop_known (frags : list str) :
  forall i s id,
    edcs_id s = Some id ->
    edcs_id_i (scan_loop frags i s) = edcs_id_i s.
Proof.
  induction frags as [|frag rest IH]; intros i s id H; cbn [scan_loop].
  - reflexivity.
  - destruct (scan_step_known s frag id i H) as [H1 H2].
    rewrite (IH (i + 1) _ id H1). exact H2.
Qed.

(** A fragment that is not an identifier leaves it unknown. *)
Lemma scan_step_unknown (s : scan) (frag : str) (i : Z) :
  edcs_id s = None ->
  str_eqb (slice frag 0 5) (L "EDCS-") = false ->
  edcs_id (scan_step s frag i) = None.
Proof.
  intros H Hp. unfold scan_step. rewrite H, Hp. cbn [andb].
  destruct (str_eqb (slice frag 0 4) (L "<!--")); [exact H|].
  destruct (mem frag keyword_list); [exact H|].
  destruct (mem frag material_list); [exact H|].
  destruct (contains frag (L ";")); [|exact H].
  destruct (scan_elements_id (split_on ";" frag) (split_on ";" frag) i s)
    as [H1 _].
  rewrite H1. exact H.
Qed.

Lemma scan_loop_first (frags : list str) :
  forall i s,
    edcs_id s = None ->
    edcs_id_i (scan_loop frags i s) =
    match first_identifier frags i with
    | Some k => Some k
    | None => edcs_id_i s
    end.
Proof.
  induction frags as [|frag rest IH]; intros i s H;
    cbn [scan_loop first_identifier].
  - reflexivity.
  - destruct (str_eqb (slice frag 0 5) (L "EDCS-")) eqn:Ep.
    + assert (E : scan_step s frag i = set_id s frag i).
      { unfold scan_step. rewrite H, Ep. reflexivity. }
      rewrite E.
      rewrite (scan_loop_known rest (i + 1) (set_id s frag i) frag eq_refl).
      reflexivity.
    + rewrite (IH (i + 1) _ (scan_step_unknown s frag i H Ep)).
      destruct (first_identifier rest (i + 1)); [reflexivity|].
      unfold scan_step. rewrite H, Ep. cbn [andb].
      destruct (str_eqb (slice frag 0 4) (L "<!--")); [reflexivity|].
      destruct (mem frag keyword_list); [reflexivity|].
      destruct (mem frag material_list); [reflexivity|].
      destruct (contains frag (L ";")); [|reflexivity].
      apply scan_elements_id.
Qed.

Lemma scan_loop_known_id (frags : list str) :
  forall i s id,
    edcs_id s = Some id -> edcs_id (scan_loop frags i s) = Some id.
Proof.
  induction frags as [|frag rest IH]; intros i s id H; cbn [scan_loop].
  - exact H.
  - apply IH. apply (scan_step_known s frag id i H).
Qed.

Lemma scan_step_unknown_i (s : scan) (frag : str) (i : Z) :
  edcs_id s = None ->
  str_eqb (slice frag 0 5) (L "EDCS-") = false ->
  edcs_id_i (scan_step s frag i) = edcs_id_i s.
Proof.
  intros H Hp. unfold scan_step. rewrite H, Hp. cbn [andb].
  destruct (str_eqb (slice frag 0 4) (L "<!--")); [reflexivity|].
  destruct (mem frag keyword_list); [reflexivity|].
  destruct (mem frag material_list); [reflexivity|].
  destruct (contains frag (L ";")); [|reflexivity].
  apply scan_elements_id.
Qed.

(** The identifier and its position are found together. *)
Lemma scan_loop_id_found (frags : list str) :
  forall i s k,
    edcs_id s = None -> edcs_id_i s = None ->
    edcs_id_i (scan_loop frags i s) = Some k ->
    exists id, edcs_id (scan_loop frags i s) = Some id.
Proof.
  induction frags as [|frag rest IH]; intros i s k H Hi Hk; cbn [scan_loop] in *.
  - congruence.
  - destruct (str_eqb (slice frag 0 5) (L "EDCS-")) eqn:Ep.
    + assert (E : scan_step s frag i = set_id s frag i).
      { unfold scan_step. rewrite H, Ep. reflexivity. }
      rewrite E. exists frag. apply scan_loop_known_id. reflexivity.
    + apply (IH (i + 1) (scan_step s frag i) k).
      * apply scan_step_unknown; assumption.
      * rewrite scan_step_unknown_i; assumption.
      * exact Hk.
Qed.

(** [edcs_id_i] is the position of the first fragment that starts with
    ["EDCS-"]. *)
Lemma edcs_id_i_first_identifier (insc : list str) :
  edcs_id_i (scan_loop insc 0 scan0) = first_identifier insc 0.
Proof.
  rewrite (scan_loop_first insc 0 scan0 eq_refl).
  destruct (first_identifier insc 0); reflexivity.
Qed.

End IdentifierPosition.

(** ** Neighbour search in [ignore_duplicates] *)

Section NeighbourBound.
Import Py Duplicates.

(** The bound given by [visit] is enough for every row whose label is
    a position of the frame. *)
Lemma visit_neighbours_complete (f : frame) (id : option str) (idx step : Z)
      (ixs ds : list (option Z)) (m : nat) :
  step = 1 \/ step = -1 ->
  - len f <= idx <= len f ->
  neighbours (S (2 * length f) + m) f id idx step 1 ixs ds
  = neighbours (S (2 * length f)) f id idx step 1 ixs ds.
Proof.
  intros Hs Hi. apply neighbours_fuel; unfold len in *; try lia.
Qed.

End NeighbourBound.

(** ** Field extraction *)

Section FieldExtraction.
Import Py Findspot Extractor.

(** C2: with the identifier at position 5 and the date fragments 100, 150,
    120 and 180, the minimum and maximum are computed (into [date_from] and
    [date_to]) but the record's [time_from] and [time_to] stay NaN. *)
Theorem odd_position_dates_not_stored :
  get_dating fragments_four_dates 5
  = Ok (mkDating (L "PubX") None None (Some 100) (Some 180) false)
  /\ exists d,
      extract fragments_four_dates = Ok (Record_ d)
      /\ Data.publication d = L "PubX"
      /\ Data.time_from d = None
      /\ Data.time_to d = None.
Proof.
  split; [vm_compute; reflexivity|].
  eexists. split; [vm_compute; reflexivity|].
  repeat split.
Qed.

(** The date step never sets [time_from] or [time_to] for an identifier at
    an odd position from 5 on. *)
Lemma get_dating_odd_no_time (insc : list str) (k : Z) (d : dating) :
  5 <= k -> k mod 2 = 1 ->
  get_dating insc k = Ok d ->
  time_from d = None /\ time_to d = None.
Proof.
  intros H5 Hodd. unfold get_dating.
  destruct (Z.eqb_spec k 1); [lia|].
  destruct (Z.eqb_spec k 3); [lia|].
  destruct (Z.leb_spec 5 k) as [_|Hlt]; [|lia].
  rewrite Hodd. simpl.
  destruct (index insc 0); [|discriminate].
  destruct (parse_nums _ _ _) as [dates err].
  destruct err.
  - intros Hd. inversion Hd. auto.
  - destruct (py_min dates), (py_max dates); try discriminate.
    intros Hd. inversion Hd. auto.
Qed.

(** C6: with the identifier at position 3 and a first date that is not a
    number, the record is produced with [time_from] NaN, but its
    publication is the first fragment, not ["error"]. *)
Theorem bad_date_at_position_3_keeps_publication :
  exists d,
    extract fragments_bad_date = Ok (Record_ d)
    /\ Data.publication d = L "PubX"
    /\ Data.publication d <> L "error"
    /\ Data.time_from d = None
    /\ Data.time_to d = Some 180
    /\ Data.keywords d = L "viri".
Proof.
  eexists. split; [vm_compute; reflexivity|].
  repeat split. discriminate.
Qed.

(** The claim of the rule-table example fails on its keywords field. *)
Lemma rule_table_example_keywords_not_vir :
  ~ (exists d,
        extract fragments_vir = Ok (Record_ d)
        /\ Data.publication d = L "PubX"
        /\ Data.time_from d = Some 120
        /\ Data.time_to d = Some 180
        /\ Data.keywords d = L "vir").
Proof.
  intros [d [H [_ [_ [_ Hk]]]]].
  vm_compute in H. inversion H. subst d. discriminate Hk.
Qed.

End FieldExtraction.

(** ** Field extraction: the identifier at position 3 *)

Section PositionThree.
Import Py Findspot Extractor.

(** A record carries the publication and dates of the date step. *)
Lemma extract_dating (insc : list str) (k : Z) (d : Data.t) :
  edcs_id_i (scan_loop insc 0 scan0) = Some k ->
  extract insc = Ok (Record_ d) ->
  exists dt,
    get_dating insc k = Ok dt
    /\ Data.publication d = publication dt
    /\ Data.time_from d = time_from dt
    /\ Data.time_to d = time_to dt
    /\ Data.dump d = insc.
Proof.
  intros Hk. unfold extract. rewrite Hk.
  destruct (edcs_id (scan_loop insc 0 scan0)) as [id|]; [|discriminate].
  destruct (get_dating insc k) as [dt|e]; [|discriminate].
  unfold bind at 1.
  destruct (index insc (get_text_i (scan_loop insc 0 scan0))) as [text|];
    [|discriminate].
  match goal with
  | |- (bind ?m _) = _ -> _ => destruct m as [[[[f0 la] lo] pr]|e]
  end; [|discriminate].
  unfold bind.
  match goal with
  | |- (if ?c then _ else _) = _ -> _ => destruct c
  end; [discriminate|].
  intros H. inversion H. exists dt. repeat split.
Qed.

Lemma get_dating_3 (insc : list str) (dt : dating) :
  get_dating insc 3 = Ok dt ->
  exists f0 f1 f2,
    index insc 0 = Some f0 /\ index insc 1 = Some f1
    /\ index insc 2 = Some f2
    /\ publication dt = f0
    /\ time_from dt = int (squeeze f1)
    /\ time_to dt = int (squeeze f2).
Proof.
  unfold get_dating. change (3 =? 1) with false. change (3 =? 3) with true.
  cbv iota.
  destruct (index insc 0) as [f0|]; [|discriminate].
  destruct (index insc 1) as [f1|]; [|discriminate].
  destruct (index insc 2) as [f2|]; [|discriminate].
  intros H. inversion H. exists f0, f1, f2. repeat split.
Qed.

(** An inscription with a date is not skipped as a comment. *)
Lemma extract_dated_not_skipped (insc : list str) (k : Z) (dt : dating)
      (a : Z) :
  edcs_id_i (scan_loop insc 0 scan0) = Some k ->
  get_dating insc k = Ok dt ->
  time_from dt = Some a ->
  extract insc <> Ok Skip.
Proof.
  intros Hk Hdt Hf.
  destruct (scan_loop_id_found insc 0 scan0 k eq_refl eq_refl Hk) as [id Hid].
  unfold extract. rewrite Hk, Hid, Hdt. unfold bind at 1.
  destruct (index insc (get_text_i (scan_loop insc 0 scan0))) as [text|];
    [|discriminate].
  match goal with
  | |- (bind ?m _) <> _ => destruct m as [[[[f0 la] lo] pr]|e]
  end; [|discriminate].
  unfold bind. rewrite Hf. cbn [isnan].
  rewrite andb_false_r. cbn [andb]. discriminate.
Qed.

(** C8 (amended): on the fragment list of the rule-table example the
    record has publication ["PubX"], dates 120 and 180 and keywords
    ["n/a"], since ["vir"] is not a keyword term; and for every fragment
    list with the identifier at position 3 whose fragments 1 and 2 are
    accepted by [int], an extraction that returns gives a record, with
    [publication = fragment[0]], [time_from = int(fragment[1])] and
    [time_to = int(fragment[2])]. *)
Theorem extract_identifier_at_position_3 :
  (exists d,
      extract fragments_vir = Ok (Record_ d)
      /\ Data.publication d = L "PubX"
      /\ Data.time_from d = Some 120
      /\ Data.time_to d = Some 180
      /\ Data.keywords d = L "n/a")
  /\ (forall insc f0 f1 f2 a b o,
         edcs_id_i (scan_loop insc 0 scan0) = Some 3 ->
         index insc 0 = Some f0 -> index insc 1 = Some f1 ->
         index insc 2 = Some f2 ->
         int f1 = Some a -> int f2 = Some b ->
         extract insc = Ok o ->
         exists d,
           o = Record_ d
           /\ Data.publication d = f0
           /\ Data.time_from d = Some a
           /\ Data.time_to d = Some b).
Proof.
  split.
  - eexists. split; [vm_compute; reflexivity|]. repeat split.
  - intros insc f0 f1 f2 a b o Hk H0 H1 H2 Ha Hb Ho.
    assert (Hdt : get_dating insc 3
                  = Ok (mkDating f0 (Some a) (Some b) None None false)).
    { unfold get_dating. change (3 =? 1) with false. change (3 =? 3) with true.
      cbv iota. rewrite H0, H1, H2. unfold squeeze.
      rewrite (int_accepts_squeezed f1 a Ha), (int_accepts_squeezed f2 b Hb).
      reflexivity. }
    destruct o as [|d].
    + exfalso. exact (extract_dated_not_skipped insc 3 _ a Hk Hdt eq_refl Ho).
    + exists d. split; [reflexivity|].
      destruct (extract_dating insc 3 d Hk Ho) as [dt [Hdt' [Hp [Hf [Ht _]]]]].
      rewrite Hdt in Hdt'. inversion Hdt'; subst dt.
      simpl in Hp, Hf, Ht. auto.
Qed.

Lemma extract_identifier_at_position_3_witness :
  exists d,
    Record_
      (Data.mk (L "PubX") (L "EDCS-000001") (Some 120) (Some 180) (L "n/a")
         (Some (L "EDCS-000001")) CNaN CNaN (L "someword")
         (L "someword") (L "viri") (L "n/a") fragments_viri) = Record_ d
    /\ Data.publication d = L "PubX"
    /\ Data.time_from d = Some 120
    /\ Data.time_to d = Some 180.
Proof.
  apply (proj2 extract_identifier_at_position_3 fragments_viri
           (L "PubX") (L "120") (L "180") 120 180);
    vm_compute; reflexivity.
Defined.

(** A record made from an identifier at an odd position from 5 on has no
    dates. *)
Lemma extract_odd_position_no_dates (insc : list str) (k : Z) (d : Data.t) :
  edcs_id_i (scan_loop insc 0 scan0) = Some k ->
  5 <= k -> k mod 2 = 1 ->
  extract insc = Ok (Record_ d) ->
  Data.time_from d = None /\ Data.time_to d = None.
Proof.
  intros Hk H5 Hodd Hd.
  destruct (extract_dating insc k d Hk Hd) as [dt [Hdt [_ [Hf [Ht _]]]]].
  destruct (get_dating_odd_no_time insc k dt H5 Hodd Hdt) as [H1 H2].
  split; congruence.
Qed.

End PositionThree.

(** ** Normalising text without brackets *)

Section BracketFree.
Import Py Normalizer.

Lemma index_In {A : Type} (l : list A) (i : Z) (x : A) :
  index l i = Some x -> In x l.
Proof.
  unfold index.
  destruct (0 <=? i); [apply nth_error_In|].
  destruct (- len l <=? i); [apply nth_error_In|discriminate].
Qed.

Lemma char_is_In (text : str) (i : Z) (c : ascii) :
  char_is text i c = true -> In c text.
Proof.
  unfold char_is. destruct (index text i) as [x|] eqn:E; [|discriminate].
  intros H. apply Ascii.eqb_eq in H. subst x. exact (index_In _ _ _ E).
Qed.

Lemma missing_without_bracket (text : str) (i : Z) :
  ~ In "["%char text -> missing text i = false.
Proof.
  intros Hno. unfold missing.
  destruct (i <? len text - 2); [|reflexivity].
  destruct (char_is text i "[") eqn:E1;
    [exfalso; exact (Hno (char_is_In _ _ _ E1))|].
  destruct (char_is text (i - 1) "[") eqn:E2;
    [exfalso; exact (Hno (char_is_In _ _ _ E2))|].
  destruct (char_is text (i - 2) "[") eqn:E3;
    [exfalso; exact (Hno (char_is_In _ _ _ E3))|].
  reflexivity.
Qed.

Lemma keep_without_bracket (text : str) :
  ~ In "["%char text ->
  forall rest i, keep text rest i = filter plain rest.
Proof.
  intros Hno. induction rest as [|c rest IH]; intros i; simpl.
  - reflexivity.
  - rewrite (missing_without_bracket text i Hno), orb_false_r.
    unfold plain at 1. rewrite IH. reflexivity.
Qed.

Lemma keep_plain (text : str) :
  forall rest i, forallb plain rest = true -> keep text rest i = rest.
Proof.
  induction rest as [|c rest IH]; intros i H; simpl in *.
  - reflexivity.
  - apply andb_true_iff in H. destruct H as [Hc Hr].
    unfold plain in Hc. rewrite Hc. simpl. rewrite (IH _ Hr). reflexivity.
Qed.

Lemma firstn_In {A : Type} (n : nat) :
  forall (l : list A) (x : A), In x (firstn n l) -> In x l.
Proof.
  induction n as [|n IH]; intros [|y l] x H; simpl in H; try contradiction.
  destruct H as [H|H]; [left; exact H|right; exact (IH l x H)].
Qed.

Lemma skipn_In {A : Type} (n : nat) :
  forall (l : list A) (x : A), In x (skipn n l) -> In x l.
Proof.
  induction n as [|n IH]; intros [|y l] x H; simpl in H; try assumption.
  right. exact (IH l x H).
Qed.

Lemma chars_In (text : str) (a b : Z) (c : ascii) :
  In c (chars text a b) -> In c text.
Proof.
  unfold chars. intros H.
  apply firstn_In in H. exact (skipn_In _ _ _ H).
Qed.

Lemma lower_bracket (c : ascii) : lower c = "["%char -> c = "["%char.
Proof.
  destruct c as [[] [] [] [] [] [] [] []]; vm_compute; congruence.
Qed.

Lemma correct_build_without_bracket (text : str) :
  ~ In "["%char text ->
  forall spans corrected closing,
    ~ In "["%char corrected ->
    ~ In "["%char (fst (correct_build text spans corrected closing)).
Proof.
  intros Hno. induction spans as [|sp spans IH]; intros corrected closing Hc.
  - exact Hc.
  - simpl. apply IH. intros H.
    apply in_app_or in H. destruct H as [H|H].
    + apply in_app_or in H. destruct H as [H|H]; [exact (Hc H)|].
      exact (Hno (chars_In _ _ _ _ H)).
    + apply in_map_iff in H. destruct H as [x [Hx Hin]].
      apply lower_bracket in Hx. subst x.
      exact (Hno (chars_In _ _ _ _ Hin)).
Qed.

Lemma correct_text_without_bracket (text : str) :
  ~ In "["%char text -> ~ In "["%char (correct_text text).
Proof.
  intros Hno. unfold correct_text.
  pose proof (correct_build_without_bracket text Hno
                (correct_scan (length text) text (find text (L "<") 0))
                [] 0 (fun H => H)) as Hb.
  destruct (correct_build text _ [] 0) as [corrected closing].
  intros H. apply in_app_or in H. destruct H as [H|H].
  - exact (Hb H).
  - exact (Hno (chars_In _ _ _ _ H)).
Qed.

Lemma superficial_build_without_bracket (text : str) :
  ~ In "["%char text ->
  forall spans res closing,
    ~ In "["%char res ->
    ~ In "["%char (fst (superficial_build text spans res closing)).
Proof.
  intros Hno. induction spans as [|[o c] spans IH]; intros res closing Hc.
  - exact Hc.
  - simpl. apply IH. intros H.
    apply in_app_or in H. destruct H as [H|H]; [exact (Hc H)|].
    exact (Hno (chars_In _ _ _ _ H)).
Qed.

Lemma remove_superficial_without_bracket (text : str) :
  ~ In "["%char text -> ~ In "["%char (remove_superficial_letters text).
Proof.
  intros Hno. unfold remove_superficial_letters.
  pose proof (superficial_build_without_bracket text Hno
                (superficial_scan (length text) text (find text (L "{") 0))
                [] 0 (fun H => H)) as Hb.
  destruct (superficial_build text _ [] 0) as [res closing].
  intros H. apply in_app_or in H. destruct H as [H|H].
  - exact (Hb H).
  - exact (Hno (chars_In _ _ _ _ H)).
Qed.

Lemma word_plain (k : str) :
  forall w ws,
    forallb plain k = true ->
    split_aux k = (w, ws) ->
    forallb plain w = true /\ Forall (fun x => forallb plain x = true) ws.
Proof.
  induction k as [|c k IH]; intros w ws Hk H.
  - inversion H. split; [reflexivity|constructor].
  - simpl in H, Hk. apply andb_true_iff in Hk. destruct Hk as [Hc Hk].
    destruct (split_aux k) as [w' ws'] eqn:E.
    destruct (IH w' ws' Hk eq_refl) as [Hw Hws].
    destruct (isspace c); inversion H; subst; clear H.
    + split; [reflexivity|].
      destruct w'; [exact Hws|constructor; assumption].
    + split; [simpl; rewrite Hc; exact Hw|exact Hws].
Qed.

Lemma join_plain (ws : list str) :
  Forall (fun x => forallb plain x = true) ws ->
  forallb plain (join (L " ") ws) = true.
Proof.
  induction ws as [|w ws IH]; intros H.
  - reflexivity.
  - inversion H as [|? ? Hw Hws]; subst.
    destruct ws as [|w2 ws]; [exact Hw|].
    change (join (L " ") (w :: w2 :: ws))
      with (w ++ L " " ++ join (L " ") (w2 :: ws)).
    rewrite !forallb_app, Hw, (IH Hws). reflexivity.
Qed.

Lemma squeeze_plain (k : str) :
  forallb plain k = true -> forallb plain (join (L " ") (split k)) = true.
Proof.
  intros Hk. apply join_plain. unfold split.
  destruct (split_aux k) as [w ws] eqn:E.
  destruct (word_plain k w ws Hk E) as [Hw Hws].
  destruct w; [exact Hws|constructor; assumption].
Qed.

Lemma find_from_absent (x : ascii) (s : str) :
  forall pos, ~ In x s -> find_from [x] s pos = -1.
Proof.
  induction s as [|c s IH]; intros pos Hno.
  - reflexivity.
  - simpl. destruct (Ascii.eqb_spec x c) as [->|Hne].
    + exfalso. apply Hno. left. reflexivity.
    + simpl. apply IH. intros H. apply Hno. right. exact H.
Qed.

Lemma find_plain (x : ascii) (s : str) :
  plain x = false -> forallb plain s = true -> find s [x] 0 = -1.
Proof.
  intros Hx Hs. unfold find. simpl. apply find_from_absent.
  intros Hin. rewrite forallb_forall in Hs.
  rewrite (Hs x Hin) in Hx. discriminate.
Qed.

(** A text made of letters and whitespace only, with its words joined
    by single spaces, is left as it is. *)
Lemma get_cleantext_fixed (k : str) :
  forallb plain k = true ->
  get_cleantext (join (L " ") (split k)) = join (L " ") (split k).
Proof.
  intros Hk. pose proof (squeeze_plain k Hk) as Hp.
  unfold get_cleantext.
  change (L "=") with ["="%char]. change (L "{") with ["{"%char].
  rewrite (find_plain "=" _ eq_refl Hp), (find_plain "{" _ eq_refl Hp).
  change (negb (-1 =? -1)) with false. cbv iota.
  rewrite (keep_plain _ _ 0 Hp).
  rewrite (split_join (split k) (split_words k)). reflexivity.
Qed.

(** On a string without an opening square bracket the normaliser is
    idempotent. *)
Lemma get_cleantext_idempotent_without_bracket (s : str) :
  ~ In "["%char s ->
  get_cleantext (get_cleantext s) = get_cleantext s.
Proof.
  intros Hno. unfold get_cleantext at 2 3.
  set (t1 := if negb (find s (L "=") 0 =? -1) then correct_text s else s).
  set (t2 := if negb (find s (L "{") 0 =? -1)
             then remove_superficial_letters t1 else t1).
  assert (H1 : ~ In "["%char t1).
  { unfold t1. destruct (negb (find s (L "=") 0 =? -1));
      [apply correct_text_without_bracket|]; exact Hno. }
  assert (H2 : ~ In "["%char t2).
  { unfold t2. destruct (negb (find s (L "{") 0 =? -1));
      [apply remove_superficial_without_bracket|]; exact H1. }
  rewrite (keep_without_bracket t2 H2).
  apply get_cleantext_fixed.
  apply forallb_forall. intros c Hc. apply filter_In in Hc. tauto.
Qed.

End BracketFree.

(** ** Markup normalisation *)

Section MarkupNormalisation.
Import Py Normalizer.

(** C3: a placeholder at the end of the string loses its digit and its
    closing bracket in the first pass and its opening bracket in the
    second, so normalising twice differs from normalising once. *)
Theorem get_cleantext_not_idempotent_on_final_placeholder :
  get_cleantext (L "ab[3]") = L "ab["
  /\ get_cleantext (get_cleantext (L "ab[3]")) = L "ab"
  /\ get_cleantext (get_cleantext (L "ab[3]")) <> get_cleantext (L "ab[3]").
Proof.
  repeat split; try (vm_compute; reflexivity).
  vm_compute. discriminate.
Qed.

(** C7: an opening marker without a closing one puts [closing] back to 0,
    so the whole text is appended again after the corrected reading. *)
Theorem correct_text_unmatched_opening_repeats_text :
  correct_text (L "AB<CD=ef") = L "ABcdAB<CD=ef"
  /\ correct_text (L "AB<CD=ef") <> L "ABcd"
  /\ get_cleantext (L "AB<CD=ef") = L "ABcdABCDef".
Proof.
  repeat split; try (vm_compute; reflexivity).
  vm_compute. discriminate.
Qed.

End MarkupNormalisation.

(** ** Toponyms *)

Section ToponymGeneration.
Import Py Toponyms.

(** C5: for the word ["Troia"] the candidates are ["Troiensis"],
    ["Troensis"] and ["Trensis"]; the last one has the stem ["Tr"], of
    length 2. *)
Theorem get_toponyms_emits_short_stem :
  word_toponyms (L "Troia") [] = Ok [L "Troiensis"; L "Troensis"; L "Trensis"]
  /\ L "Trensis" = L "Tr" ++ L "ensis"
  /\ len (L "Tr") = 2
  /\ get_toponyms [Some (L "Troia")]
     = Ok [Some (L "Troiensis, Troensis, Trensis")].
Proof.
  repeat split; vm_compute; reflexivity.
Qed.

End ToponymGeneration.

(** ** Provenance matching *)

Section ProvenanceMatching.
Import Py Matcher.

(** The length test is made on the cell, not on its candidates: the
    candidate ["ensis"], of length 5, is tested and yields a migrant row. *)
Lemma short_candidate_is_tested :
  In (L "ensis") (candidates (toponyms place_short_candidate))
  /\ len (L "ensis") < 6
  /\ contains (L "natus Narbensis") (L "Romensis") = false
  /\ search_toponyms [record_natus] [place_short_candidate]
     = [make_migrant record_natus place_short_candidate].
Proof.
  repeat split; try (vm_compute; reflexivity).
  vm_compute. right. left. reflexivity.
Qed.

Lemma candidates_skipped (t : toponym_row) :
  cell_is_searched t = false -> candidates (toponyms t) = [].
Proof.
  unfold cell_is_searched, candidates.
  destruct (toponyms t) as [s|]; [|reflexivity].
  destruct (len s <? 6); [reflexivity|discriminate].
Qed.

Lemma search_top_complete (top : str) (t : toponym_row)
      (edcs : list edcs_row) (r : edcs_row) (text : str) :
  In r edcs -> cleantext r = Some text -> contains text top = true ->
  In (make_migrant r t) (search_top top t edcs).
Proof.
  induction edcs as [|r' rest IH]; intros Hin Htext Hsub.
  - destruct Hin.
  - simpl. destruct Hin as [->|Hin].
    + rewrite Htext, Hsub. left. reflexivity.
    + destruct (cleantext r') as [text'|]; [|auto].
      destruct (contains text' top); [right|]; auto.
Qed.

(** Rows whose cell is skipped add nothing to the result. *)
Lemma search_toponyms_skips_short_cells (edcs : list edcs_row)
      (tops : list toponym_row) :
  search_toponyms edcs tops
  = search_toponyms edcs (filter cell_is_searched tops).
Proof.
  unfold search_toponyms. f_equal. unfold matches.
  induction tops as [|t tops IH]; [reflexivity|].
  simpl. destruct (cell_is_searched t) eqn:E.
  - simpl. rewrite IH. reflexivity.
  - unfold search_row at 1. rewrite (candidates_skipped t E). exact IH.
Qed.

(** C4 (amended): a cell of the toponyms column that is not a string or
    is shorter than 6 characters is skipped, so it is never searched for
    and yields no row; a cell of length 6 or more has every one of its
    comma-separated, stripped candidates searched for in every cleantext,
    whatever the length of the candidate. *)
Theorem search_toponyms_tests_cells_of_length_6 :
  (forall edcs t,
      cell_is_searched t = false ->
      candidates (toponyms t) = [] /\ search_row edcs t = [])
  /\
  (forall edcs t s top r text,
      toponyms t = Some s -> 6 <= len s ->
      In top (map strip (split_on "," s)) ->
      In r edcs -> cleantext r = Some text -> contains text top = true ->
      In top (candidates (toponyms t))
      /\ In (make_migrant r t) (matches edcs [t])).
Proof.
  split.
  - intros edcs t H. unfold search_row.
    rewrite (candidates_skipped t H). split; reflexivity.
  - intros edcs t s top r text Ht Hlen Htop Hr Htext Hsub.
    assert (Hc : In top (candidates (toponyms t))).
    { rewrite Ht. unfold candidates.
      destruct (Z.ltb_spec (len s) 6); [lia|exact Htop]. }
    split; [exact Hc|].
    unfold matches. simpl. rewrite app_nil_r. unfold search_row.
    apply in_flat_map. exists top. split; [exact Hc|].
    eapply search_top_complete; eauto.
Qed.

Lemma search_toponyms_tests_cells_of_length_6_witness :
  (candidates (toponyms place_short_cell) = []
   /\ search_row [record_natus] place_short_cell = [])
  /\ (In (L "ensis") (candidates (toponyms place_short_candidate))
      /\ In (make_migrant record_natus place_short_candidate)
            (matches [record_natus] [place_short_candidate])).
Proof.
  split.
  - apply (proj1 search_toponyms_tests_cells_of_length_6).
    vm_compute. reflexivity.
  - apply (proj2 search_toponyms_tests_cells_of_length_6
             [record_natus] place_short_candidate (L "Romensis, ensis")
             (L "ensis") record_natus (L "natus Narbensis")).
    + reflexivity.
    + vm_compute. discriminate.
    + vm_compute. right. left. reflexivity.
    + left. reflexivity.
    + reflexivity.
    + vm_compute. reflexivity.
Defined.

End ProvenanceMatching.

(** ** Duplicates *)

Section DuplicateMarking.
Import Py Duplicates.

(** C1: on three rows with one identifier and distances 50, 12 and 30,
    followed by a row with another identifier, all three rows are marked,
    the row with the minimum distance 12 included; on the three rows
    alone the search for neighbours leaves the frame and raises
    IndexError. *)
Theorem ignore_duplicates_marks_loop_positions :
  (exists f,
      ignore_duplicates three_duplicates_and_other = Ok f
      /\ ignored f = [(0, 1); (1, 1); (2, 1); (3, 0)]
      /\ map distance f = [Some 50; Some 12; Some 30; None])
  /\ ignore_duplicates three_duplicates = Raise IndexError.
Proof.
  split; [|vm_compute; reflexivity].
  eexists. split; [vm_compute; reflexivity|].
  split; reflexivity.
Qed.

End DuplicateMarking.

(** * Further properties of the code *)

(** ** Searching and cutting strings *)

Section FindAndCut.
Import Py.

Lemma skipn_length_app {A : Type} (pre x : list A) :
  skipn (length pre) (pre ++ x) = x.
Proof. induction pre as [|c pre IH]; [reflexivity|exact IH]. Qed.

Lemma firstn_length_app {A : Type} (pre x : list A) :
  firstn (length pre) (pre ++ x) = pre.
Proof.
  induction pre as [|c pre IH]; [reflexivity|].
  simpl. rewrite IH. reflexivity.
Qed.

Lemma to_nat_len {A : Type} (l : list A) : Z.to_nat (len l) = length l.
Proof. unfold len. apply Nat2Z.id. Qed.

Lemma len_app {A : Type} (l1 l2 : list A) : len (l1 ++ l2) = len l1 + len l2.
Proof. unfold len. rewrite length_app. lia. Qed.

Lemma len_cons {A : Type} (x : A) (l : list A) : len (x :: l) = 1 + len l.
Proof. unfold len. simpl length. lia. Qed.

Lemma len_nonneg {A : Type} (l : list A) : 0 <= len l.
Proof. unfold len. lia. Qed.

(** The characters between two positions given by lengths. *)
Lemma chars_middle (pre mid post : str) (a b : Z) :
  a = len pre -> b = len pre + len mid ->
  chars (pre ++ mid ++ post) a b = mid.
Proof.
  intros -> ->. unfold chars.
  replace (len pre + len mid - len pre) with (len mid) by lia.
  rewrite !to_nat_len, skipn_length_app, firstn_length_app. reflexivity.
Qed.

Lemma chars_whole (text : str) : chars text 0 (len text) = text.
Proof.
  unfold chars. rewrite Z.sub_0_r, to_nat_len. simpl. apply firstn_all.
Qed.

Lemma chars_empty (text : str) (a b : Z) : b <= a -> chars text a b = [].
Proof.
  intros H. unfold chars. replace (Z.to_nat (b - a)) with 0%nat by lia.
  reflexivity.
Qed.

Lemma startswith_single (c x : ascii) (s : str) :
  startswith (c :: s) [x] = Ascii.eqb x c.
Proof. simpl. destruct s; apply andb_true_r. Qed.

(** The first occurrence of a character. *)
Lemma find_from_first (c : ascii) (pre rest : str) :
  forall pos,
    ~ In c pre ->
    find_from [c] (pre ++ c :: rest) pos = pos + len pre.
Proof.
  induction pre as [|x pre IH]; intros pos Hno.
  - rewrite find_from_eq. simpl app. rewrite startswith_single, Ascii.eqb_refl.
    unfold len. simpl. lia.
  - rewrite find_from_eq. simpl app. rewrite startswith_single.
    destruct (Ascii.eqb_spec c x) as [->|Hne].
    + exfalso. apply Hno. left. reflexivity.
    + rewrite IH by (intros H; apply Hno; right; exact H).
      rewrite len_cons. lia.
Qed.

Lemma find_first (c : ascii) (pre rest : str) :
  ~ In c pre -> find (pre ++ c :: rest) [c] 0 = len pre.
Proof.
  intros H. unfold find. simpl skipn. rewrite (find_from_first c pre rest 0 H).
  lia.
Qed.

(** Searching from the end of a prefix. *)
Lemma find_after (pre s sub : str) (start : Z) :
  start = len pre ->
  find (pre ++ s) sub start = find_from sub s start.
Proof.
  intros ->. unfold find. rewrite to_nat_len, skipn_length_app. reflexivity.
Qed.

Lemma find_none (x : ascii) (s : str) : ~ In x s -> find s [x] 0 = -1.
Proof. intros H. unfold find. simpl skipn. apply find_from_absent. exact H. Qed.

Lemma find_present (x : ascii) (s : str) : find s [x] 0 = -1 -> ~ In x s.
Proof.
  unfold find. simpl skipn. intros H Hin.
  apply in_split in Hin. destruct Hin as [l1 [l2 ->]].
  assert (Hex : exists pre rest, l1 ++ x :: l2 = pre ++ x :: rest /\ ~ In x pre).
  { clear H. induction l1 as [|c l1 IH].
    - exists [], l2. split; [reflexivity|intros []].
    - destruct (Ascii.eqb_spec x c) as [->|Hne].
      + exists [], (l1 ++ c :: l2). split; [reflexivity|intros []].
      + destruct IH as [pre [rest [E Hno]]].
        exists (c :: pre), rest. split; [simpl; rewrite E; reflexivity|].
        intros [Hc|Hc]; [congruence|exact (Hno Hc)]. }
  destruct Hex as [pre [rest [E Hno]]]. rewrite E in H.
  rewrite (find_from_first x pre rest 0 Hno) in H.
  pose proof (len_nonneg pre). lia.
Qed.

End FindAndCut.

(** ** Markup spans *)

Section MarkupSpans.
Import Py Normalizer.

(** [find] of a character from a position given by a length. *)
Lemma find_char_at (text pre mid rest : str) (c : ascii) (start : Z) :
  text = pre ++ mid ++ c :: rest -> start = len pre -> ~ In c mid ->
  find text [c] start = len pre + len mid.
Proof.
  intros -> -> Hno. rewrite (find_after pre _ [c] (len pre) eq_refl).
  apply find_from_first. exact Hno.
Qed.

Lemma find_char_none (text pre rest : str) (c : ascii) (start : Z) :
  text = pre ++ rest -> start = len pre -> ~ In c rest ->
  find text [c] start = -1.
Proof.
  intros -> -> Hno. rewrite (find_after pre _ [c] (len pre) eq_refl).
  apply find_from_absent. exact Hno.
Qed.

Lemma chars_between (text pre mid post : str) (a b : Z) :
  text = pre ++ mid ++ post -> a = len pre -> b = len pre + len mid ->
  chars text a b = mid.
Proof. intros ->. apply chars_middle. Qed.

Lemma correct_scan_stop (fuel : nat) (text : str) :
  correct_scan fuel text (-1) = [].
Proof. destruct fuel; reflexivity. Qed.

Lemma superficial_scan_stop (fuel : nat) (text : str) :
  superficial_scan fuel text (-1) = [].
Proof. destruct fuel; reflexivity. Qed.

Ltac reassoc := simpl; repeat (rewrite <- app_assoc; simpl); reflexivity.

Ltac len_lia :=
  unfold len; repeat rewrite length_app; simpl length;
  repeat rewrite length_app; simpl length; lia.

(** X1: the text returned by [get_cleantext] has its words separated by
    single spaces, with no whitespace at either end: squeezing it again
    changes nothing. *)
Theorem get_cleantext_squeezed (s : str) :
  join (L " ") (split (get_cleantext s)) = get_cleantext s
  /\ Forall is_word (split (get_cleantext s)).
Proof.
  unfold get_cleantext.
  set (r := keep _ _ 0).
  rewrite (split_join (split r) (split_words r)).
  split; [reflexivity|apply split_words].
Qed.

(** X2: a text without an opening correction marker is returned as it is
    by [correct_text], and a text without an opening brace is returned as it
    is by [remove_superficial_letters]. *)
Theorem markers_absent_no_change (text : str) :
  (~ In "<"%char text -> correct_text text = text)
  /\ (~ In "{"%char text -> remove_superficial_letters text = text).
Proof.
  split; intros Hno.
  - unfold correct_text. change (L "<") with ["<"%char].
    rewrite (find_none "<" text Hno), correct_scan_stop. simpl.
    apply chars_whole.
  - unfold remove_superficial_letters. change (L "{") with ["{"%char].
    rewrite (find_none "{" text Hno), superficial_scan_stop. simpl.
    apply chars_whole.
Qed.

Lemma markers_absent_no_change_witness :
  correct_text (L "D M s") = L "D M s"
  /\ remove_superficial_letters (L "D M s") = L "D M s".
Proof.
  split.
  - apply (proj1 (markers_absent_no_change (L "D M s"))).
    simpl. intuition discriminate.
  - apply (proj2 (markers_absent_no_change (L "D M s"))).
    simpl. intuition discriminate.
Defined.

(** X3: one well-formed correction span [<reading=original>] is replaced
    by the lowercased reading; the text before and after it is kept. *)
Theorem correct_text_single_span (pre a b post : str) :
  ~ In "<"%char pre -> ~ In "<"%char a -> ~ In "<"%char b ->
  ~ In "<"%char post ->
  ~ In "="%char a -> ~ In ">"%char a -> ~ In ">"%char b ->
  correct_text (pre ++ L "<" ++ a ++ L "=" ++ b ++ L ">" ++ post)
  = pre ++ map lower a ++ post.
Proof.
  intros Hpre Ha Hb Hpost Hea Hca Hcb.
  set (text := pre ++ L "<" ++ a ++ L "=" ++ b ++ L ">" ++ post).
  assert (Ho : find text ["<"%char] 0 = len pre).
  { apply (find_char_at text [] pre (a ++ L "=" ++ b ++ L ">" ++ post));
      [reflexivity|reflexivity|exact Hpre]. }
  assert (He : find text ["="%char] (len pre) = len pre + (1 + len a)).
  { rewrite <- (len_cons "<"%char a).
    apply (find_char_at text pre ("<"%char :: a) (b ++ L ">" ++ post));
      [unfold text; reassoc|reflexivity|].
    intros [H|H]; [discriminate|exact (Hea H)]. }
  assert (Hc : find text [">"%char] (len pre)
               = len pre + len ("<"%char :: a ++ "="%char :: b)).
  { apply (find_char_at text pre ("<"%char :: a ++ "="%char :: b) post);
      [unfold text; reassoc|reflexivity|].
    intros [H|H]; [discriminate|].
    apply in_app_or in H. destruct H as [H|[H|H]];
      [exact (Hca H)|discriminate|exact (Hcb H)]. }
  assert (Hn : find text ["<"%char] (len pre + 1) = -1).
  { apply (find_char_none text (pre ++ L "<")
             (a ++ L "=" ++ b ++ L ">" ++ post));
      [unfold text; reassoc|rewrite len_app; reflexivity|].
    intros H. apply in_app_or in H. simpl in H. destruct H as [H|[H|H]];
      [exact (Ha H)|discriminate|].
    apply in_app_or in H. simpl in H. destruct H as [H|[H|H]];
      [exact (Hb H)|discriminate|exact (Hpost H)]. }
  assert (Hlen : len text = len pre + len ("<"%char :: a ++ "="%char :: b)
                            + 1 + len post).
  { unfold text. rewrite !len_app, !len_cons, !len_app, !len_cons.
    change (len (L "<")) with 1. change (len (L "=")) with 1.
    change (len (L ">")) with 1. lia. }
  assert (Hbig : len pre + 1 < len text).
  { rewrite Hlen, len_cons. pose proof (len_nonneg post).
    pose proof (len_nonneg (a ++ "="%char :: b)). lia. }
  unfold correct_text. fold text.
  change (L "<") with ["<"%char]. rewrite Ho.
  destruct (length text) as [|n] eqn:En.
  { exfalso. pose proof (len_nonneg pre). unfold len in Hbig at 2.
    rewrite En in Hbig. simpl in Hbig. lia. }
  assert (Hcond : negb (len pre =? -1) && (len pre + 1 <? len text) = true).
  { pose proof (len_nonneg pre).
    destruct (Z.eqb_spec (len pre) (-1)); [lia|].
    destruct (Z.ltb_spec (len pre + 1) (len text)); [reflexivity|lia]. }
  cbn [correct_scan]. rewrite Hcond.
  change (L "=") with ["="%char]. change (L ">") with [">"%char].
  change (L "<") with ["<"%char].
  rewrite He, Hc, Hn, correct_scan_stop.
  cbn [correct_build opens equals closes app].
  rewrite (chars_between text [] pre (L "<" ++ a ++ L "=" ++ b ++ L ">" ++ post)
             0 (len pre)) by reflexivity.
  rewrite (chars_between text (pre ++ L "<") a (L "=" ++ b ++ L ">" ++ post)
             (len pre + 1) (len pre + (1 + len a)));
    [|unfold text; reassoc|rewrite len_app; reflexivity
     |rewrite len_app; change (len (L "<")) with 1; lia].
  rewrite (chars_between text
             (pre ++ ("<"%char :: a ++ "="%char :: b) ++ L ">") post []
             (len pre + len ("<"%char :: a ++ "="%char :: b) + 1) (len text));
    [|unfold text; rewrite app_nil_r; reassoc
     |rewrite !len_app; change (len (L ">")) with 1; lia
     |rewrite Hlen, !len_app; change (len (L ">")) with 1; lia].
  rewrite <- app_assoc. reflexivity.
Qed.

Lemma correct_text_single_span_witness :
  correct_text (L "AN" ++ L "<" ++ L "TIQVVS" ++ L "=" ++ L "tiqvvs" ++ L ">"
                  ++ L " V")
  = L "AN" ++ map lower (L "TIQVVS") ++ L " V".
Proof.
  apply correct_text_single_span; simpl; intuition discriminate.
Defined.

(** X4: one well-formed span of superficial letters [{...}] is removed
    with its braces; the text before and after it is kept. *)
Theorem remove_superficial_single_span (pre a post : str) :
  ~ In "{"%char pre -> ~ In "{"%char a -> ~ In "{"%char post ->
  ~ In "}"%char a ->
  remove_superficial_letters (pre ++ L "{" ++ a ++ L "}" ++ post)
  = pre ++ post.
Proof.
  intros Hpre Ha Hpost Hca.
  set (text := pre ++ L "{" ++ a ++ L "}" ++ post).
  assert (Ho : find text ["{"%char] 0 = len pre).
  { apply (find_char_at text [] pre (a ++ L "}" ++ post));
      [reflexivity|reflexivity|exact Hpre]. }
  assert (Hc : find text ["}"%char] (len pre) = len pre + len ("{"%char :: a)).
  { apply (find_char_at text pre ("{"%char :: a) post);
      [unfold text; reassoc|reflexivity|].
    intros [H|H]; [discriminate|exact (Hca H)]. }
  assert (Hn : find text ["{"%char] (len pre + 1) = -1).
  { apply (find_char_none text (pre ++ L "{") (a ++ L "}" ++ post));
      [unfold text; reassoc|rewrite len_app; reflexivity|].
    intros H. apply in_app_or in H. simpl in H. destruct H as [H|[H|H]];
      [exact (Ha H)|discriminate|exact (Hpost H)]. }
  assert (Hlen : len text = len pre + len ("{"%char :: a) + 1 + len post).
  { unfold text. rewrite !len_app, !len_cons.
    change (len (L "{")) with 1. change (len (L "}")) with 1. lia. }
  assert (Hbig : len pre + 1 < len text).
  { rewrite Hlen, len_cons. pose proof (len_nonneg post).
    pose proof (len_nonneg a). lia. }
  unfold remove_superficial_letters. fold text.
  change (L "{") with ["{"%char]. rewrite Ho.
  destruct (length text) as [|n] eqn:En.
  { exfalso. pose proof (len_nonneg pre). unfold len in Hbig at 2.
    rewrite En in Hbig. simpl in Hbig. lia. }
  assert (Hcond : negb (len pre =? -1) && (len pre + 1 <? len text) = true).
  { pose proof (len_nonneg pre).
    destruct (Z.eqb_spec (len pre) (-1)); [lia|].
    destruct (Z.ltb_spec (len pre + 1) (len text)); [reflexivity|lia]. }
  cbn [superficial_scan]. rewrite Hcond.
  change (L "}") with ["}"%char]. change (L "{") with ["{"%char].
  rewrite Hc, Hn, superficial_scan_stop.
  cbn [superficial_build app].
  rewrite (chars_between text [] pre (L "{" ++ a ++ L "}" ++ post)
             0 (len pre)) by reflexivity.
  rewrite (chars_between text (pre ++ ("{"%char :: a) ++ L "}") post []
             (len pre + len ("{"%char :: a) + 1) (len text));
    [|unfold text; rewrite app_nil_r; reassoc
     |rewrite !len_app; change (len (L "}")) with 1; lia
     |rewrite Hlen, !len_app; change (len (L "}")) with 1; lia].
  reflexivity.
Qed.

Lemma remove_superficial_single_span_witness :
  remove_superficial_letters (L "ab" ++ L "{" ++ L "cd" ++ L "}" ++ L "ef")
  = L "ab" ++ L "ef".
Proof.
  apply remove_superficial_single_span; simpl; intuition discriminate.
Defined.

(** X5: an opening brace that is followed by text but by no closing
    brace removes nothing: the text before the brace is followed by the
    whole text once more. *)
Theorem remove_superficial_unmatched_repeats (pre rest : str) (c : ascii) :
  ~ In "{"%char pre -> ~ In "{"%char (c :: rest) ->
  ~ In "}"%char (c :: rest) ->
  remove_superficial_letters (pre ++ L "{" ++ c :: rest)
  = pre ++ (pre ++ L "{" ++ c :: rest).
Proof.
  intros Hpre Hrest Hclose.
  set (text := pre ++ L "{" ++ c :: rest).
  assert (Ho : find text ["{"%char] 0 = len pre).
  { apply (find_char_at text [] pre (c :: rest));
      [reflexivity|reflexivity|exact Hpre]. }
  assert (Hc : find text ["}"%char] (len pre) = -1).
  { apply (find_char_none text pre (L "{" ++ c :: rest));
      [reflexivity|reflexivity|].
    intros H. simpl in H. destruct H as [H|H];
      [discriminate|exact (Hclose H)]. }
  assert (Hn : find text ["{"%char] (len pre + 1) = -1).
  { apply (find_char_none text (pre ++ L "{") (c :: rest));
      [unfold text; reassoc|rewrite len_app; reflexivity|exact Hrest]. }
  assert (Hbig : len pre + 1 < len text).
  { unfold text. len_lia. }
  unfold remove_superficial_letters. fold text.
  change (L "{") with ["{"%char]. rewrite Ho.
  destruct (length text) as [|n] eqn:En.
  { exfalso. pose proof (len_nonneg pre). unfold len in Hbig at 2.
    rewrite En in Hbig. simpl in Hbig. lia. }
  assert (Hcond : negb (len pre =? -1) && (len pre + 1 <? len text) = true).
  { pose proof (len_nonneg pre).
    destruct (Z.eqb_spec (len pre) (-1)); [lia|].
    destruct (Z.ltb_spec (len pre + 1) (len text)); [reflexivity|lia]. }
  cbn [superficial_scan]. rewrite Hcond.
  change (L "}") with ["}"%char]. change (L "{") with ["{"%char].
  rewrite Hc, Hn, superficial_scan_stop.
  cbn [superficial_build app]. change (-1 + 1) with 0.
  rewrite (chars_between text [] pre (L "{" ++ c :: rest) 0 (len pre))
    by reflexivity.
  rewrite chars_whole. reflexivity.
Qed.

Lemma remove_superficial_unmatched_repeats_witness :
  remove_superficial_letters (L "ab" ++ L "{" ++ "c"%char :: L "d")
  = L "ab" ++ (L "ab" ++ L "{" ++ "c"%char :: L "d").
Proof.
  apply remove_superficial_unmatched_repeats; simpl; intuition discriminate.
Defined.

(** X6: an opening correction marker with a separator but no closing
    marker after it keeps the lowercased reading and then repeats the whole
    text, markers included. *)
Theorem correct_text_unmatched_repeats (pre a b : str) :
  ~ In "<"%char pre -> ~ In "<"%char a -> ~ In "<"%char b ->
  ~ In "="%char a -> ~ In ">"%char a -> ~ In ">"%char b ->
  correct_text (pre ++ L "<" ++ a ++ L "=" ++ b)
  = pre ++ map lower a ++ (pre ++ L "<" ++ a ++ L "=" ++ b).
Proof.
  intros Hpre Ha Hb Hea Hca Hcb.
  set (text := pre ++ L "<" ++ a ++ L "=" ++ b).
  assert (Ho : find text ["<"%char] 0 = len pre).
  { apply (find_char_at text [] pre (a ++ L "=" ++ b));
      [reflexivity|reflexivity|exact Hpre]. }
  assert (He : find text ["="%char] (len pre) = len pre + (1 + len a)).
  { rewrite <- (len_cons "<"%char a).
    apply (find_char_at text pre ("<"%char :: a) b);
      [unfold text; reassoc|reflexivity|].
    intros [H|H]; [discriminate|exact (Hea H)]. }
  assert (Hc : find text [">"%char] (len pre) = -1).
  { apply (find_char_none text pre (L "<" ++ a ++ L "=" ++ b));
      [reflexivity|reflexivity|].
    intros H. simpl in H. destruct H as [H|H]; [discriminate|].
    apply in_app_or in H. simpl in H. destruct H as [H|[H|H]];
      [exact (Hca H)|discriminate|exact (Hcb H)]. }
  assert (Hn : find text ["<"%char] (len pre + 1) = -1).
  { apply (find_char_none text (pre ++ L "<") (a ++ L "=" ++ b));
      [unfold text; reassoc|rewrite len_app; reflexivity|].
    intros H. apply in_app_or in H. simpl in H. destruct H as [H|[H|H]];
      [exact (Ha H)|discriminate|exact (Hb H)]. }
  assert (Hbig : len pre + 1 < len text).
  { unfold text. len_lia. }
  unfold correct_text. fold text.
  change (L "<") with ["<"%char]. rewrite Ho.
  destruct (length text) as [|n] eqn:En.
  { exfalso. pose proof (len_nonneg pre). unfold len in Hbig at 2.
    rewrite En in Hbig. simpl in Hbig. lia. }
  assert (Hcond : negb (len pre =? -1) && (len pre + 1 <? len text) = true).
  { pose proof (len_nonneg pre).
    destruct (Z.eqb_spec (len pre) (-1)); [lia|].
    destruct (Z.ltb_spec (len pre + 1) (len text)); [reflexivity|lia]. }
  cbn [correct_scan]. rewrite Hcond.
  change (L "=") with ["="%char]. change (L ">") with [">"%char].
  change (L "<") with ["<"%char].
  rewrite He, Hc, Hn, correct_scan_stop.
  cbn [correct_build opens equals closes app]. change (-1 + 1) with 0.
  rewrite (chars_between text [] pre (L "<" ++ a ++ L "=" ++ b) 0 (len pre))
    by reflexivity.
  rewrite (chars_between text (pre ++ L "<") a (L "=" ++ b)
             (len pre + 1) (len pre + (1 + len a)));
    [|unfold text; reassoc|rewrite len_app; reflexivity
     |rewrite len_app; change (len (L "<")) with 1; lia].
  rewrite chars_whole, <- app_assoc. reflexivity.
Qed.

Lemma correct_text_unmatched_repeats_witness :
  correct_text (L "AB" ++ L "<" ++ L "CD" ++ L "=" ++ L "ef")
  = L "AB" ++ map lower (L "CD") ++ (L "AB" ++ L "<" ++ L "CD" ++ L "=" ++ L "ef").
Proof.
  apply correct_text_unmatched_repeats; simpl; intuition discriminate.
Defined.

End MarkupSpans.

(** ** Findspot sub-fields *)

Section FindspotFields.
Import Py Findspot.

Lemma read_findspot_name (name : str) :
  forall result rest,
    ~ In "<"%char name ->
    read_findspot (name ++ "<"%char :: rest) result = Some (result ++ name).
Proof.
  induction name as [|c name IH]; intros result rest Hno; simpl.
  - rewrite app_nil_r. reflexivity.
  - destruct (Ascii.eqb_spec c "<") as [->|Hne].
    + exfalso. apply Hno. left. reflexivity.
    + rewrite IH by (intros H; apply Hno; right; exact H).
      rewrite <- app_assoc. reflexivity.
Qed.

Lemma read_findspot_open (rest : str) :
  forall result, ~ In "<"%char rest -> read_findspot rest result = None.
Proof.
  induction rest as [|c rest IH]; intros result Hno; simpl.
  - reflexivity.
  - destruct (Ascii.eqb_spec c "<") as [->|Hne].
    + exfalso. apply Hno. left. reflexivity.
    + apply IH. intros H. apply Hno. right. exact H.
Qed.

(** X7: [get_findspot] returns the text between the first [">"] and the
    next ["<"]. *)
Theorem get_findspot_between_tags (pre name rest : str) :
  ~ In ">"%char pre -> ~ In "<"%char name ->
  get_findspot (pre ++ L ">" ++ name ++ L "<" ++ rest) = Some name.
Proof.
  intros Hpre Hname.
  change (pre ++ L ">" ++ name ++ L "<" ++ rest)
    with (pre ++ ">"%char :: name ++ "<"%char :: rest).
  unfold get_findspot. change (L ">") with [">"%char].
  rewrite (find_first ">" pre (name ++ "<"%char :: rest) Hpre).
  pose proof (len_nonneg pre) as Hp.
  destruct (Z.eqb_spec (len pre) (-1)); [lia|].
  replace (Z.to_nat (len pre + 1)) with (length (pre ++ [">"%char]))
    by (rewrite length_app; unfold len; simpl; lia).
  replace (pre ++ ">"%char :: name ++ "<"%char :: rest)
    with ((pre ++ [">"%char]) ++ name ++ "<"%char :: rest)
    by (rewrite <- app_assoc; reflexivity).
  rewrite skipn_length_app.
  apply (read_findspot_name name [] rest Hname).
Qed.

Lemma get_findspot_between_tags_witness :
  get_findspot (L "<!-- a href=x" ++ L ">" ++ L "Roma" ++ L "<" ++ L "/a -->")
  = Some (L "Roma").
Proof.
  apply get_findspot_between_tags; simpl; intuition discriminate.
Defined.

(** X8: without any [">"] [get_findspot] returns ["error"]; with a
    [">"] that no ["<"] follows it returns [None], not a string. *)
Theorem get_findspot_without_tags (place pre rest : str) :
  (~ In ">"%char place -> get_findspot place = Some (L "error"))
  /\ (~ In ">"%char pre -> ~ In "<"%char rest ->
      get_findspot (pre ++ L ">" ++ rest) = None).
Proof.
  split.
  - intros Hno. unfold get_findspot. change (L ">") with [">"%char].
    rewrite (find_none ">" place Hno). reflexivity.
  - intros Hpre Hrest.
    change (pre ++ L ">" ++ rest) with (pre ++ ">"%char :: rest).
    unfold get_findspot. change (L ">") with [">"%char].
    rewrite (find_first ">" pre rest Hpre).
    pose proof (len_nonneg pre) as Hp.
    destruct (Z.eqb_spec (len pre) (-1)); [lia|].
    replace (Z.to_nat (len pre + 1)) with (length (pre ++ [">"%char]))
      by (rewrite length_app; unfold len; simpl; lia).
    replace (pre ++ ">"%char :: rest) with ((pre ++ [">"%char]) ++ rest)
      by (rewrite <- app_assoc; reflexivity).
    rewrite skipn_length_app.
    apply read_findspot_open. exact Hrest.
Qed.

Lemma get_findspot_without_tags_witness :
  get_findspot (L "Roma") = Some (L "error")
  /\ get_findspot (L "<!-- x" ++ L ">" ++ L "Roma") = None.
Proof.
  split.
  - apply (proj1 (get_findspot_without_tags (L "Roma") [] [])).
    simpl. intuition discriminate.
  - apply (proj2 (get_findspot_without_tags [] (L "<!-- x") (L "Roma")));
      simpl; intuition discriminate.
Defined.

Lemma read_province_run (name : str) :
  forall result rest,
    forallb province_char name = true ->
    match rest with [] => True | c :: _ => province_char c = false end ->
    read_province (name ++ rest) result = result ++ name.
Proof.
  induction name as [|c name IH]; intros result rest Hname Hrest.
  - rewrite app_nil_r. simpl. destruct rest as [|x rest]; [reflexivity|].
    simpl. unfold province_char in Hrest. rewrite Hrest. reflexivity.
  - simpl in Hname. apply andb_true_iff in Hname. destruct Hname as [Hc Hn].
    simpl. unfold province_char in Hc. rewrite Hc.
    rewrite (IH _ rest Hn Hrest), <- app_assoc. reflexivity.
Qed.

(** X9: [get_province] returns the longest run of letters, digits,
    whitespace and slashes that follows the first ["provinz="], also when
    the run reaches the end of the string. *)
Theorem get_province_run (place name rest : str) :
  find place (L "provinz=") 0 <> -1 ->
  skipn (Z.to_nat (find place (L "provinz=") 0 + 8)) place = name ++ rest ->
  forallb province_char name = true ->
  match rest with [] => True | c :: _ => province_char c = false end ->
  get_province place = name.
Proof.
  intros Htag Hskip Hname Hrest. unfold get_province.
  destruct (Z.eqb_spec (find place (L "provinz=") 0) (-1)); [contradiction|].
  rewrite Hskip. apply (read_province_run name [] rest Hname Hrest).
Qed.

Lemma get_province_run_witness :
  get_province (L "<!-- provinz=Gallia Narbonensis&ort=Narbo -->")
  = L "Gallia Narbonensis"
  /\ get_province (L "<!-- provinz=Roma") = L "Roma".
Proof.
  split.
  - apply (get_province_run _ (L "Gallia Narbonensis") (L "&ort=Narbo -->"));
      vm_compute; try reflexivity. discriminate.
  - apply (get_province_run _ (L "Roma") []);
      vm_compute; try reflexivity; try exact I. discriminate.
Defined.

Lemma read_coord_run (lit : str) :
  forall result c rest,
    forallb collected lit = true -> collected c = false ->
    read_coord (lit ++ c :: rest) result =
    if float_ok (result ++ lit) then CFloat (result ++ lit)
    else CStr (result ++ lit).
Proof.
  induction lit as [|x lit IH]; intros result c rest Hlit Hc.
  - rewrite app_nil_r. simpl. unfold collected in Hc. rewrite Hc. reflexivity.
  - simpl in Hlit. apply andb_true_iff in Hlit. destruct Hlit as [Hx Hl].
    simpl. unfold collected in Hx. rewrite Hx.
    rewrite (IH _ c rest Hl Hc), <- app_assoc. reflexivity.
Qed.

(** X10: when a character that is not numeric, a full stop or a minus sign
    ends the run after the tag, [get_lat] and [get_long] return the run: as
    a float when [float] accepts it, as the string itself otherwise (the
    empty string when the run is empty). *)
Theorem get_lat_long_run (place lit rest : str) (c : ascii) :
  forallb collected lit = true -> collected c = false ->
  (find place (L "latitude=") 0 <> -1 ->
   skipn (Z.to_nat (find place (L "latitude=") 0 + 9)) place
   = lit ++ c :: rest ->
   get_lat place = if float_ok lit then CFloat lit else CStr lit)
  /\
  (find place (L "longitude=") 0 <> -1 ->
   skipn (Z.to_nat (find place (L "longitude=") 0 + 10)) place
   = lit ++ c :: rest ->
   get_long place = if float_ok lit then CFloat lit else CStr lit).
Proof.
  intros Hlit Hc. split; intros Htag Hskip.
  - unfold get_lat.
    destruct (Z.eqb_spec (find place (L "latitude=") 0) (-1)); [contradiction|].
    rewrite Hskip. apply (read_coord_run lit [] c rest Hlit Hc).
  - unfold get_long.
    destruct (Z.eqb_spec (find place (L "longitude=") 0) (-1)); [contradiction|].
    rewrite Hskip. apply (read_coord_run lit [] c rest Hlit Hc).
Qed.

Lemma get_lat_long_run_witness :
  get_lat (L "<!-- latitude=41.9&longitude=12.5 -->") = CFloat (L "41.9")
  /\ get_lat (L "<!-- latitude=&longitude=12.5 -->") = CStr []
  /\ get_long (L "<!-- latitude=41.9&longitude=12-5 -->") = CStr (L "12-5").
Proof.
  split; [|split].
  - apply (proj1 (get_lat_long_run _ (L "41.9") (L "longitude=12.5 -->") "&"
                    eq_refl eq_refl));
      vm_compute; [discriminate|reflexivity].
  - apply (proj1 (get_lat_long_run _ [] (L "longitude=12.5 -->") "&"
                    eq_refl eq_refl));
      vm_compute; [discriminate|reflexivity].
  - apply (proj2 (get_lat_long_run _ (L "12-5") (L "-->") " "
                    eq_refl eq_refl));
      vm_compute; [discriminate|reflexivity].
Defined.

Lemma search_province_step (elem : str) (rest : list str) :
  search_province (elem :: rest) =
  if fragment_matches elem then elem else search_province rest.
Proof.
  rewrite search_province_cons. unfold fragment_matches.
  destruct (mem elem province_list); [reflexivity|].
  destruct (contains elem (L "|")); [|reflexivity].
  destruct (part_matches elem); reflexivity.
Qed.

(** X11: [search_province] returns the first fragment that is a province
    name or has a ["|"]-separated part that is one after stripping, and
    ["n/a"] when no fragment is such. *)
Theorem search_province_first_match (pre post insc : list str) (elem : str) :
  ((forall e, In e pre -> fragment_matches e = false) ->
   fragment_matches elem = true ->
   search_province (pre ++ elem :: post) = elem)
  /\ ((forall e, In e insc -> fragment_matches e = false) ->
      search_province insc = L "n/a").
Proof.
  split.
  - induction pre as [|p pre IH]; intros Hpre Helem.
    + simpl app. rewrite search_province_step, Helem. reflexivity.
    + simpl app. rewrite search_province_step, (Hpre p (or_introl eq_refl)).
      apply IH; [|exact Helem]. intros e He. apply Hpre. right. exact He.
  - induction insc as [|p insc IH]; intros Hno.
    + reflexivity.
    + rewrite search_province_step, (Hno p (or_introl eq_refl)).
      apply IH. intros e He. apply Hno. right. exact He.
Qed.

Lemma search_province_first_match_witness :
  search_province ([L "CIL 13, 00001"] ++ L "Belgica | Germania superior"
                     :: [L "Roma"])
  = L "Belgica | Germania superior"
  /\ search_province [L "CIL 13, 00001"; L "Cyprus"] = L "n/a".
Proof.
  split.
  - apply (proj1 (search_province_first_match [L "CIL 13, 00001"] [L "Roma"]
                    [] (L "Belgica | Germania superior"))).
    + intros e [<-|[]]. vm_compute. reflexivity.
    + vm_compute. reflexivity.
  - apply (proj2 (search_province_first_match [] [] 
                    [L "CIL 13, 00001"; L "Cyprus"] [])).
    intros e [<-|[<-|[]]]; vm_compute; reflexivity.
Defined.

End FindspotFields.

(** ** Field extraction: identifier, publication and exceptions *)

Section ExtractionRules.
Import Py Findspot Extractor.

Lemma str_eqb_eq (a b : str) : str_eqb a b = true <-> a = b.
Proof.
  revert b. induction a as [|x a IH]; intros [|y b]; simpl;
    try (split; [discriminate|discriminate]); [tauto|].
  rewrite andb_true_iff, Ascii.eqb_eq, IH.
  split; [intros [-> ->]; reflexivity|intros H; inversion H; auto].
Qed.

(** The identifier kept by the first loop is the first fragment that
    passes the test. *)
Lemma scan_loop_id (frags : list str) :
  forall i s,
    edcs_id s = None ->
    edcs_id (scan_loop frags i s) =
    match List.find is_identifier frags with
    | Some x => Some x
    | None => None
    end.
Proof.
  induction frags as [|frag rest IH]; intros i s H; cbn [scan_loop List.find].
  - exact H.
  - unfold is_identifier at 1.
    destruct (str_eqb (slice frag 0 5) (L "EDCS-")) eqn:Ep.
    + assert (E : scan_step s frag i = set_id s frag i).
      { unfold scan_step. rewrite H, Ep. reflexivity. }
      rewrite E. apply scan_loop_known_id. reflexivity.
    + apply IH. apply scan_step_unknown; assumption.
Qed.

Lemma first_identifier_find (frags : list str) :
  forall i k,
    first_identifier frags i = Some k ->
    i <= k < i + len frags
    /\ exists x, List.find is_identifier frags = Some x
                 /\ nth_error frags (Z.to_nat (k - i)) = Some x
                 /\ is_identifier x = true.
Proof.
  induction frags as [|frag rest IH]; intros i k H;
    cbn [first_identifier List.find] in *.
  - discriminate.
  - unfold is_identifier at 1.
    destruct (str_eqb (slice frag 0 5) (L "EDCS-")) eqn:Ep.
    + inversion H; subst. rewrite len_cons. pose proof (len_nonneg rest).
      split; [lia|]. exists frag. rewrite Z.sub_diag. auto.
    + destruct (IH (i + 1) k H) as [Hk [x [Hf [Hn Hx]]]].
      rewrite len_cons. split; [lia|]. exists x.
      split; [exact Hf|]. split; [|exact Hx].
      replace (Z.to_nat (k - i)) with (S (Z.to_nat (k - (i + 1)))) by lia.
      exact Hn.
Qed.

Lemma first_identifier_absent (frags : list str) :
  forall i,
    (forall frag, In frag frags -> is_identifier frag = false) ->
    first_identifier frags i = None.
Proof.
  induction frags as [|frag rest IH]; intros i H; cbn [first_identifier].
  - reflexivity.
  - pose proof (H frag (or_introl eq_refl)) as Hf.
    unfold is_identifier in Hf. rewrite Hf.
    apply IH. intros f Hin. apply H. right. exact Hin.
Qed.

(** X12: a fragment list without a fragment that starts with ["EDCS-"]
    gives no record, and a list of such fragment lists gives an empty
    result. *)
Theorem no_identifier_no_record (inscriptions : list (list str)) :
  (forall insc frag,
      In insc inscriptions -> In frag insc -> is_identifier frag = false) ->
  (forall insc, In insc inscriptions -> extract insc = Ok Skip)
  /\ get_insc_dict inscriptions = Ok [].
Proof.
  intros H.
  assert (Hs : forall insc, In insc inscriptions -> extract insc = Ok Skip).
  { intros insc Hin. unfold extract.
    rewrite edcs_id_i_first_identifier.
    rewrite (first_identifier_absent insc 0 (fun f Hf => H insc f Hin Hf)).
    destruct (edcs_id (scan_loop insc 0 scan0)); reflexivity. }
  split; [exact Hs|].
  induction inscriptions as [|insc rest IH]; [reflexivity|].
  cbn [get_insc_dict]. rewrite (Hs insc (or_introl eq_refl)). cbn [bind].
  rewrite IH; [reflexivity| |].
  - intros i f Hi Hf. apply (H i f); [right; exact Hi|exact Hf].
  - intros i Hi. apply Hs. right. exact Hi.
Qed.

Lemma no_identifier_no_record_witness :
  (forall insc,
      In insc [[L "CIL 06, 00001"; L "Roma"]; [L "vacat"]] ->
      extract insc = Ok Skip)
  /\ get_insc_dict [[L "CIL 06, 00001"; L "Roma"]; [L "vacat"]] = Ok [].
Proof.
  apply no_identifier_no_record.
  intros insc frag Hi Hf. simpl in Hi.
  destruct Hi as [<-|[<-|[]]]; simpl in Hf;
    repeat (destruct Hf as [<-|Hf]; [reflexivity|]); destruct Hf.
Defined.

Lemma get_dating_even (insc : list str) (k : Z) (dt : dating) :
  k mod 2 = 0 ->
  get_dating insc k = Ok dt ->
  publication dt = L "error" /\ time_from dt = None /\ time_to dt = None.
Proof.
  intros Hk. unfold get_dating.
  destruct (Z.eqb_spec k 1) as [->|_]; [discriminate|].
  destruct (Z.eqb_spec k 3) as [->|_]; [discriminate|].
  rewrite Hk. change (0 =? 1) with false. rewrite andb_false_r.
  intros H. inversion H. auto.
Qed.

(** X13: a record made from a fragment list whose identifier is at an
    even position (0, 2, 4, ...) has the publication ["error"] and no
    dates. *)
Theorem even_position_publication_error (insc : list str) (k : Z)
        (d : Data.t) :
  first_identifier insc 0 = Some k -> k mod 2 = 0 ->
  extract insc = Ok (Record_ d) ->
  Data.publication d = L "error"
  /\ Data.time_from d = None /\ Data.time_to d = None.
Proof.
  intros Hk Heven Hd. rewrite <- edcs_id_i_first_identifier in Hk.
  destruct (extract_dating insc k d Hk Hd) as [dt [Hdt [Hp [Hf [Ht _]]]]].
  destruct (get_dating_even insc k dt Heven Hdt) as [H1 [H2 H3]].
  repeat split; congruence.
Qed.

Lemma even_position_publication_error_witness :
  Data.publication
    (Data.mk (L "error") (L "EDCS-000002") None None (L "Roma")
       (Some (L "EDCS-000002")) CNaN CNaN (L "D M") (L "D M") (L "viri")
       (L "n/a") fragments_id_at_2) = L "error"
  /\ None = (None : option Z) /\ None = (None : option Z).
Proof.
  apply (even_position_publication_error fragments_id_at_2 2);
    vm_compute; reflexivity.
Defined.

(** X14: a record made from a fragment list whose identifier is at
    position 1 has the first fragment as publication and no dates. *)
Theorem position_1_publication_only (insc : list str) (d : Data.t) :
  first_identifier insc 0 = Some 1 ->
  extract insc = Ok (Record_ d) ->
  index insc 0 = Some (Data.publication d)
  /\ Data.time_from d = None /\ Data.time_to d = None.
Proof.
  intros Hk Hd. rewrite <- edcs_id_i_first_identifier in Hk.
  destruct (extract_dating insc 1 d Hk Hd) as [dt [Hdt [Hp [Hf [Ht _]]]]].
  unfold get_dating in Hdt. change (1 =? 1) with true in Hdt. cbv iota in Hdt.
  destruct (index insc 0) as [p|]; [|discriminate].
  inversion Hdt; subst dt. simpl in *. repeat split; congruence.
Qed.

Lemma position_1_publication_only_witness :
  index fragments_id_at_1 0 = Some (L "CIL 06, 00001")
  /\ None = (None : option Z) /\ None = (None : option Z).
Proof.
  apply (position_1_publication_only fragments_id_at_1
           (Data.mk (L "CIL 06, 00001") (L "EDCS-000003") None None (L "Roma")
              (Some (L "Roma")) CNaN CNaN (L "D M") (L "D M") (L "viri")
              (L "n/a") fragments_id_at_1));
    vm_compute; reflexivity.
Defined.

End ExtractionRules.

(** ** Field extraction: exceptions and record fields *)

Section ExtractionErrors.
Import Py Findspot Extractor.

Lemma lstrip_In (s : str) (c : ascii) : In c (lstrip s) -> In c s.
Proof.
  induction s as [|x s IH]; simpl; [tauto|].
  destruct (isspace x); [intros H; right; exact (IH H)|simpl; tauto].
Qed.

Lemma strip_In (s : str) (c : ascii) : In c (strip s) -> In c s.
Proof.
  unfold strip, rstrip. intros H.
  apply in_rev in H. apply lstrip_In in H. apply in_rev in H.
  apply lstrip_In. exact H.
Qed.

Lemma append_per_numeric_none (letters elem : str) (nums : list str) :
  (forall c, In c letters -> isnumeric c = false) ->
  append_per_numeric letters elem nums = nums.
Proof.
  revert nums. induction letters as [|c letters IH]; intros nums H; simpl.
  - reflexivity.
  - rewrite (H c (or_introl eq_refl)). apply IH.
    intros x Hx. apply H. right. exact Hx.
Qed.

Lemma collect_nums_none (frags : list str) (nums : list str) :
  (forall frag c, In frag frags -> In c frag -> isnumeric c = false) ->
  collect_nums frags nums = nums.
Proof.
  revert nums. induction frags as [|frag rest IH]; intros nums H; simpl.
  - reflexivity.
  - rewrite append_per_numeric_none.
    + apply IH. intros f c Hf Hc. apply (H f c); [right; exact Hf|exact Hc].
    + intros c Hc. apply (H frag c); [left; reflexivity|].
      apply strip_In. exact Hc.
Qed.

Lemma identifier_found (insc : list str) (k : Z) :
  first_identifier insc 0 = Some k ->
  exists id,
    edcs_id (scan_loop insc 0 scan0) = Some id
    /\ edcs_id_i (scan_loop insc 0 scan0) = Some k
    /\ index insc k = Some id
    /\ is_identifier id = true.
Proof.
  intros Hk. destruct (first_identifier_find insc 0 k Hk)
    as [Hr [x [Hf [Hn Hx]]]].
  exists x. rewrite (scan_loop_id insc 0 scan0 eq_refl), Hf.
  rewrite edcs_id_i_first_identifier.
  repeat split; try assumption.
  unfold index. destruct (Z.leb_spec 0 k); [|lia].
  rewrite Z.sub_0_r in Hn. exact Hn.
Qed.

(** X15: when the identifier is at an odd position from 5 on and no
    fragment between the publication and the identifier has a numeric
    character, [min] is called on an empty list and the extraction raises
    ValueError. *)
Theorem no_numbers_before_identifier_raises (insc : list str) (k : Z) :
  first_identifier insc 0 = Some k -> 5 <= k -> k mod 2 = 1 ->
  (forall frag c, In frag (slice insc 1 k) -> In c frag ->
                  isnumeric c = false) ->
  extract insc = Raise ValueError.
Proof.
  intros Hk H5 Hodd Hnum.
  destruct (identifier_found insc k Hk) as [id [Hid [Hki [Hix _]]]].
  unfold extract. rewrite Hid, Hki.
  assert (Hd : get_dating insc k = Raise ValueError).
  { unfold get_dating.
    destruct (Z.eqb_spec k 1); [lia|].
    destruct (Z.eqb_spec k 3); [lia|].
    destruct (Z.leb_spec 5 k) as [_|Hlt]; [|lia].
    rewrite Hodd. simpl.
    destruct (index insc 0) as [p|] eqn:E0.
    - rewrite (collect_nums_none _ [] Hnum). reflexivity.
    - exfalso. destruct insc as [|f insc]; [discriminate Hk|discriminate E0]. }
  rewrite Hd. reflexivity.
Qed.

Lemma no_numbers_before_identifier_raises_witness :
  extract fragments_no_numbers = Raise ValueError.
Proof.
  apply (no_numbers_before_identifier_raises fragments_no_numbers 5).
  - vm_compute. reflexivity.
  - lia.
  - reflexivity.
  - intros frag c Hf Hc. vm_compute in Hf.
    destruct Hf as [<-|[<-|[<-|[<-|[]]]]]; simpl in Hc;
      destruct Hc as [<-|[]]; reflexivity.
Defined.

(** X16: an exception raised for one inscription ends [get_insc_dict]:
    when the inscriptions before it raise nothing, the whole call raises the
    same exception and returns no record, whatever follows. *)
Theorem get_insc_dict_first_exception (pre post : list (list str))
        (insc : list str) (e : exn) :
  (forall i, In i pre -> exists o, extract i = Ok o) ->
  extract insc = Raise e ->
  get_insc_dict (pre ++ insc :: post) = Raise e.
Proof.
  intros Hpre He. induction pre as [|p pre IH].
  - simpl. rewrite He. reflexivity.
  - simpl app. cbn [get_insc_dict].
    destruct (Hpre p (or_introl eq_refl)) as [o Ho]. rewrite Ho. cbn [bind].
    rewrite IH; [reflexivity|].
    intros i Hi. apply Hpre. right. exact Hi.
Qed.

Lemma get_insc_dict_first_exception_witness :
  get_insc_dict ([fragments_viri] ++ fragments_no_numbers :: [fragments_vir])
  = Raise ValueError.
Proof.
  apply get_insc_dict_first_exception.
  - intros i [<-|[]]. eexists. vm_compute. reflexivity.
  - vm_compute. reflexivity.
Defined.

(** The fields of a record that come from the first loop and the text
    choice. *)
Lemma extract_fields (insc : list str) (d : Data.t) :
  extract insc = Ok (Record_ d) ->
  let s := scan_loop insc 0 scan0 in
  edcs_id s = Some (Data.edcs_id d)
  /\ index insc (get_text_i s) = Some (Data.text d)
  /\ Data.cleantext d =
     (if negb (str_eqb (Data.text d) na)
      then Normalizer.get_cleantext (Data.text d) else na)
  /\ Data.keywords d = keywords s
  /\ Data.material d = material s.
Proof.
  unfold extract.
  destruct (edcs_id (scan_loop insc 0 scan0)) as [id|]; [|discriminate].
  destruct (edcs_id_i (scan_loop insc 0 scan0)) as [k|]; [|discriminate].
  destruct (get_dating insc k) as [dt|e]; [|discriminate].
  unfold bind at 1.
  destruct (index insc (get_text_i (scan_loop insc 0 scan0))) as [text|];
    [|discriminate].
  match goal with
  | |- (bind ?m _) = _ -> _ => destruct m as [[[[f0 la] lo] pr]|e]
  end; [|discriminate].
  unfold bind.
  match goal with
  | |- (if ?c then _ else _) = _ -> _ => destruct c
  end; [discriminate|].
  intros H. inversion H. simpl. repeat split.
Qed.

(** X17: the identifier of a record is the first fragment that starts
    with ["EDCS-"]; its text is one of the fragments, its cleantext is the
    normalised text (or ["n/a"] for the text ["n/a"]), and its dump is the
    fragment list. *)
Theorem record_identifier_and_text (insc : list str) (d : Data.t) :
  extract insc = Ok (Record_ d) ->
  (exists k,
      first_identifier insc 0 = Some k
      /\ index insc k = Some (Data.edcs_id d))
  /\ slice (Data.edcs_id d) 0 5 = L "EDCS-"
  /\ In (Data.text d) insc
  /\ (Data.cleantext d = Normalizer.get_cleantext (Data.text d)
      \/ (Data.text d = L "n/a" /\ Data.cleantext d = L "n/a"))
  /\ Data.dump d = insc.
Proof.
  intros Hd.
  destruct (extract_fields insc d Hd) as [Hid [Htext [Hclean _]]].
  assert (Hk : exists k, first_identifier insc 0 = Some k).
  { destruct (first_identifier insc 0) as [k|] eqn:E; [eauto|].
    exfalso. unfold extract in Hd.
    rewrite edcs_id_i_first_identifier, E in Hd.
    destruct (edcs_id (scan_loop insc 0 scan0)); discriminate. }
  destruct Hk as [k Hk].
  destruct (identifier_found insc k Hk) as [id [Hid' [Hki [Hix Hp]]]].
  assert (id = Data.edcs_id d) by congruence. subst id.
  split; [exists k; auto|].
  split; [apply str_eqb_eq; exact Hp|].
  split; [exact (index_In _ _ _ Htext)|].
  split.
  - rewrite Hclean. destruct (str_eqb (Data.text d) na) eqn:E.
    + right. apply str_eqb_eq in E. auto.
    + left. reflexivity.
  - rewrite <- edcs_id_i_first_identifier in Hk.
    destruct (extract_dating insc k d Hk Hd) as [dt [_ [_ [_ [_ Hdump]]]]].
    exact Hdump.
Qed.

Lemma record_identifier_and_text_witness :
  exists d,
    extract fragments_viri = Ok (Record_ d)
    /\ slice (Data.edcs_id d) 0 5 = L "EDCS-"
    /\ In (Data.text d) fragments_viri.
Proof.
  eexists. split; [vm_compute; reflexivity|].
  match goal with
  | |- context [Data.edcs_id ?d] =>
      pose proof (record_identifier_and_text fragments_viri d eq_refl) as H
  end.
  destruct H as [_ [H1 [H2 _]]]. split; assumption.
Defined.

(** X18: a fragment list made of a publication, an identifier and a
    findspot comment, with no fragment left for the text, makes the
    extraction raise IndexError. *)
Theorem comment_without_text_raises (pub id place : str) :
  plain_fragment pub = true ->
  is_identifier id = true ->
  str_eqb (slice place 0 4) (L "<!--") = true ->
  extract [pub; id; place] = Raise IndexError.
Proof.
  intros Hpub Hid Hplace.
  unfold plain_fragment in Hpub.
  repeat (apply andb_true_iff in Hpub; destruct Hpub as [Hpub ?]).
  repeat match goal with
         | H : negb _ = true |- _ => apply negb_true_iff in H
         end.
  unfold is_identifier in *.
  assert (Hs : scan_loop [pub; id; place] 0 scan0
               = set_place (set_id scan0 id 1) place 2).
  { cbn [scan_loop]. change (0 + 1) with 1. change (1 + 1) with 2.
    assert (E0 : scan_step scan0 pub 0 = scan0).
    { unfold scan_step. rewrite Hpub. cbn [edcs_id scan0 andb].
      repeat match goal with H : _ = false |- _ => rewrite H end.
      reflexivity. }
    rewrite E0.
    assert (E1 : scan_step scan0 id 1 = set_id scan0 id 1).
    { unfold scan_step. rewrite Hid. reflexivity. }
    rewrite E1. unfold scan_step at 1. cbn [edcs_id set_id andb].
    rewrite Hplace. reflexivity. }
  unfold extract. rewrite Hs. reflexivity.
Qed.

Lemma comment_without_text_raises_witness :
  extract [L "CIL 06, 00001"; L "EDCS-000005";
           L "<!-- provinz=Roma&ort=Roma -->"] = Raise IndexError.
Proof.
  apply comment_without_text_raises; vm_compute; reflexivity.
Defined.

End ExtractionErrors.

(** ** Toponyms *)

Section ToponymWords.
Import Py Toponyms.

Lemma first_vowel_skip (xs ys : str) :
  forall i,
    (forall c, In c xs -> is_vowel c = false) ->
    first_vowel (xs ++ ys) i = first_vowel ys (i + len xs).
Proof.
  induction xs as [|x xs IH]; intros i H.
  - simpl. f_equal. unfold len. simpl. lia.
  - simpl app. cbn [first_vowel]. rewrite (H x (or_introl eq_refl)).
    rewrite IH by (intros c Hc; apply H; right; exact Hc).
    f_equal. rewrite len_cons. lia.
Qed.

Lemma first_vowel_ge (r : str) :
  forall i k, first_vowel r i = Some k -> i <= k.
Proof.
  induction r as [|c r IH]; intros i k H; cbn [first_vowel] in H.
  - discriminate.
  - destruct (is_vowel c); [inversion H; lia|].
    apply IH in H. lia.
Qed.

Lemma index_at_length {A : Type} (pre rest : list A) (x : A) :
  index (pre ++ x :: rest) (len pre) = Some x.
Proof.
  unfold index. pose proof (len_nonneg pre).
  destruct (Z.leb_spec 0 (len pre)); [|lia].
  rewrite to_nat_len, nth_error_app2 by lia.
  rewrite Nat.sub_diag. reflexivity.
Qed.

Lemma slice_prefix {A : Type} (pre rest : list A) :
  slice (pre ++ rest) 0 (len pre) = pre.
Proof.
  unfold slice, clamp. rewrite len_app.
  pose proof (len_nonneg pre). pose proof (len_nonneg rest).
  destruct (Z.ltb_spec 0 0); [lia|].
  destruct (Z.ltb_spec (len pre) 0); [lia|].
  rewrite Z.min_l, Z.min_l by lia.
  rewrite Z.sub_0_r, to_nat_len. simpl skipn. apply firstn_length_app.
Qed.

(** X19: a word whose last vowel follows a consonant and a stem of more
    than two letters gives exactly one candidate, the stem with
    ["ensis"]. *)
Theorem word_toponyms_regular (stem tail : str) (z v : ascii)
        (toponym_list : list str) :
  2 < len (stem ++ [z]) ->
  is_vowel z = false -> is_vowel v = true ->
  (forall c, In c tail -> is_vowel c = false) ->
  word_toponyms ((stem ++ [z]) ++ v :: tail) toponym_list
  = Ok (toponym_list ++ [(stem ++ [z]) ++ L "ensis"]).
Proof.
  intros Hlen Hz Hv Htail. unfold word_toponyms.
  rewrite rev_app_distr. simpl rev. rewrite <- app_assoc. simpl app.
  rewrite first_vowel_skip
    by (intros c Hc; apply Htail; apply in_rev; exact Hc).
  cbn [first_vowel]. rewrite Hv.
  assert (Hi : len ((stem ++ [z]) ++ v :: tail) - (0 + len (rev tail)) - 1
               = len (stem ++ [z])).
  { rewrite len_app, len_cons. unfold len at 3. rewrite length_rev.
    fold (len tail). lia. }
  rewrite Hi. destruct (Z.leb_spec (len (stem ++ [z])) 2); [lia|].
  rewrite slice_prefix.
  replace (2 * length ((stem ++ [z]) ++ v :: tail) + 1)%nat
    with (S (2 * length ((stem ++ [z]) ++ v :: tail))) by lia.
  cbn [shorten].
  replace (len (stem ++ [z]) - 1) with (len stem)
    by (rewrite len_app; unfold len at 3; simpl; lia).
  rewrite <- app_assoc. simpl app.
  rewrite index_at_length, Hz. reflexivity.
Qed.

Lemma word_toponyms_regular_witness :
  word_toponyms ((L "Nar" ++ ["b"%char]) ++ "o"%char :: []) []
  = Ok ([] ++ [(L "Nar" ++ ["b"%char]) ++ L "ensis"]).
Proof.
  apply word_toponyms_regular.
  - vm_compute. reflexivity.
  - reflexivity.
  - reflexivity.
  - intros c [].
Defined.

(** X20: a word with no vowel after its third letter (so every word of at
    most three letters, and every word without a lowercase vowel) gives no
    candidate. *)
Theorem word_toponyms_short (location : str) (toponym_list : list str) :
  (forall c, In c (skipn 3 location) -> is_vowel c = false) ->
  word_toponyms location toponym_list = Ok toponym_list.
Proof.
  intros H. unfold word_toponyms.
  destruct (first_vowel (rev location) 0) as [index|] eqn:E; [|reflexivity].
  rewrite <- (firstn_skipn 3 location) in E.
  rewrite rev_app_distr in E.
  rewrite first_vowel_skip in E
    by (intros c Hc; apply H; apply in_rev; exact Hc).
  apply first_vowel_ge in E.
  assert (Hl : len location = len (firstn 3 location) + len (skipn 3 location)).
  { rewrite <- len_app, firstn_skipn. reflexivity. }
  assert (Hf : len (firstn 3 location) <= 3).
  { unfold len. pose proof (firstn_le_length 3 location). lia. }
  unfold len in E at 1. rewrite length_rev in E. fold (len (skipn 3 location)) in E.
  destruct (Z.leb_spec (len location - index - 1) 2); [reflexivity|lia].
Qed.

Lemma word_toponyms_short_witness :
  word_toponyms (L "Roa") [] = Ok []
  /\ word_toponyms (L "Parth") [] = Ok [].
Proof.
  split; apply word_toponyms_short; simpl; intuition (subst; reflexivity).
Defined.

Lemma index_defined {A : Type} (l : list A) (j : Z) :
  - len l <= j < len l -> exists x, index l j = Some x.
Proof.
  intros H. unfold index, len in *.
  destruct (Z.leb_spec 0 j).
  - destruct (nth_error l (Z.to_nat j)) eqn:E; [eauto|].
    apply nth_error_None in E. lia.
  - destruct (Z.leb_spec (- Z.of_nat (length l)) j); [|lia].
    destruct (nth_error l (Z.to_nat (Z.of_nat (length l) + j))) eqn:E; [eauto|].
    apply nth_error_None in E. lia.
Qed.

Lemma index_below {A : Type} (l : list A) (j : Z) :
  j < - len l -> index l j = None.
Proof.
  intros H. unfold index. pose proof (len_nonneg l).
  destruct (Z.leb_spec 0 j); [lia|].
  destruct (Z.leb_spec (- len l) j); [lia|reflexivity].
Qed.

Lemma shorten_all_vowels (location : str) :
  (forall c, In c location -> is_vowel c = true) ->
  forall fuel i l,
    (1 <= fuel)%nat -> i <= len location ->
    i + len location + 1 <= Z.of_nat fuel ->
    shorten fuel location i l = Raise IndexError.
Proof.
  intros Hall. induction fuel as [|fuel IH]; intros i l H1 Hi Hf; [lia|].
  cbn [shorten].
  destruct (Z.ltb_spec (i - 1) (- len location)) as [Hlow|Hok].
  - rewrite (index_below location (i - 1) Hlow). reflexivity.
  - destruct (index_defined location (i - 1)) as [c Hc]; [lia|].
    rewrite Hc, (Hall c (index_In _ _ _ Hc)).
    apply IH; lia.
Qed.

(** X22: a word of four or more letters that are all lowercase vowels
    makes [get_toponyms] raise IndexError: the backward scan over the vowels
    runs past the beginning of the word. *)
Theorem word_toponyms_all_vowels_raises (location : str)
        (toponym_list : list str) :
  (forall c, In c location -> is_vowel c = true) ->
  4 <= len location ->
  word_toponyms location toponym_list = Raise IndexError
  /\ get_toponyms [Some location] = Raise IndexError.
Proof.
  intros Hall Hlen.
  assert (Hw : forall l, word_toponyms location l = Raise IndexError).
  { intros l. unfold word_toponyms.
    destruct (rev location) as [|c r] eqn:Er.
    - exfalso. apply (f_equal (@length ascii)) in Er.
      rewrite length_rev in Er. unfold len in Hlen. simpl in Er. lia.
    - cbn [first_vowel].
      assert (Hc : is_vowel c = true).
      { apply Hall. apply in_rev. rewrite Er. left. reflexivity. }
      rewrite Hc. destruct (Z.leb_spec (len location - 0 - 1) 2); [lia|].
      apply shorten_all_vowels; [exact Hall| | |]; unfold len in *; lia. }
  split; [apply Hw|].
  cbn [get_toponyms row_toponyms].
  assert (Hs : split location = [location]).
  { assert (Hsp : existsb isspace location = false).
    { apply not_true_is_false. intros Hex.
      apply existsb_exists in Hex. destruct Hex as [x [Hx Hsx]].
      pose proof (Hall x Hx) as Hvx.
      destruct x as [[] [] [] [] [] [] [] []]; vm_compute in Hsx, Hvx;
        congruence. }
    unfold split. rewrite <- (app_nil_r location) at 1.
    rewrite (split_aux_app_word location [] Hsp).
    cbn [split_aux fst snd]. rewrite app_nil_r.
    destruct location; [unfold len in Hlen; simpl in Hlen; lia|reflexivity]. }
  rewrite Hs. cbn [words_toponyms]. rewrite Hw. reflexivity.
Qed.

Lemma word_toponyms_all_vowels_raises_witness :
  word_toponyms (L "aeae") [] = Raise IndexError
  /\ get_toponyms [Some (L "aeae")] = Raise IndexError.
Proof.
  apply word_toponyms_all_vowels_raises.
  - intros c H. simpl in H.
    repeat (destruct H as [<-|H]; [reflexivity|]). destruct H.
  - vm_compute. discriminate.
Defined.

Lemma first_vowel_lt (r : str) :
  forall i k, first_vowel r i = Some k -> k < i + len r.
Proof.
  induction r as [|c r IH]; intros i k H; cbn [first_vowel] in H.
  - discriminate.
  - rewrite len_cons. pose proof (len_nonneg r).
    destruct (is_vowel c); [inversion H; lia|].
    apply IH in H. lia.
Qed.

Lemma shorten_appends (location : str) :
  forall fuel i l l',
    shorten fuel location i l = Ok l' ->
    exists more, l' = l ++ more /\ Forall (candidate_of location) more.
Proof.
  induction fuel as [|fuel IH]; intros i l l' H; cbn [shorten] in H.
  - inversion H. exists []. rewrite app_nil_r. split; [reflexivity|constructor].
  - destruct (index location (i - 1)) as [c|]; [|discriminate].
    destruct (is_vowel c).
    + apply IH in H. destruct H as [more [-> Hm]].
      exists ((slice location 0 (i - 1) ++ L "ensis") :: more).
      rewrite <- app_assoc. split; [reflexivity|].
      constructor; [exists (i - 1); reflexivity|exact Hm].
    + inversion H. exists []. rewrite app_nil_r.
      split; [reflexivity|constructor].
Qed.

Lemma slice_firstn {A : Type} (l : list A) (i : Z) :
  0 <= i <= len l -> slice l 0 i = firstn (Z.to_nat i) l.
Proof.
  intros H. unfold slice, clamp.
  destruct (Z.ltb_spec 0 0); [lia|].
  destruct (Z.ltb_spec i 0); [lia|].
  rewrite Z.min_l, Z.min_l by lia. rewrite Z.sub_0_r. reflexivity.
Qed.

(** X21: the candidates of a word are appended to the list, each is a
    prefix of the word followed by ["ensis"], and the first of them has a
    stem of more than two letters. *)
Theorem word_toponyms_candidates (location : str) (l l' : list str) :
  word_toponyms location l = Ok l' ->
  l' = l
  \/ exists stem tail more,
      location = stem ++ tail /\ 2 < len stem /\ tail <> []
      /\ l' = l ++ (stem ++ L "ensis") :: more
      /\ Forall (candidate_of location) more.
Proof.
  unfold word_toponyms.
  destruct (first_vowel (rev location) 0) as [index|] eqn:E;
    [|intros H; inversion H; left; reflexivity].
  pose proof (first_vowel_ge _ _ _ E) as Hge.
  pose proof (first_vowel_lt _ _ _ E) as Hlt.
  unfold len in Hlt at 1. rewrite length_rev in Hlt. fold (len location) in Hlt.
  destruct (Z.leb_spec (len location - index - 1) 2) as [Hs|Hs];
    [intros H; inversion H; left; reflexivity|].
  intros H. right. apply shorten_appends in H. destruct H as [more [-> Hm]].
  set (i := len location - index - 1) in *.
  exists (firstn (Z.to_nat i) location), (skipn (Z.to_nat i) location), more.
  split; [symmetry; apply firstn_skipn|].
  split; [unfold len; rewrite length_firstn; unfold len in *; lia|].
  split.
  - intros Hnil. apply (f_equal (@length ascii)) in Hnil.
    rewrite length_skipn in Hnil. unfold len in *. simpl in Hnil. lia.
  - rewrite <- app_assoc. simpl app.
    rewrite (slice_firstn location i) by lia.
    split; [reflexivity|exact Hm].
Qed.

Lemma word_toponyms_candidates_witness :
  [L "Troiensis"; L "Troensis"; L "Trensis"] = []
  \/ exists stem tail more,
      L "Troia" = stem ++ tail /\ 2 < len stem /\ tail <> []
      /\ [L "Troiensis"; L "Troensis"; L "Trensis"]
         = [] ++ (stem ++ L "ensis") :: more
      /\ Forall (candidate_of (L "Troia")) more.
Proof.
  apply (word_toponyms_candidates (L "Troia") []).
  vm_compute. reflexivity.
Defined.

End ToponymWords.

(** ** Provenance matching: what the result holds *)

Section MatcherResult.
Import Py Matcher.

Lemma search_top_sound (top : str) (t : toponym_row) (edcs : list edcs_row)
      (m : migrant_row) :
  In m (search_top top t edcs) ->
  exists r text,
    In r edcs /\ cleantext r = Some text /\ contains text top = true
    /\ m = make_migrant r t.
Proof.
  induction edcs as [|r rest IH]; simpl; [tauto|].
  destruct (cleantext r) as [text|] eqn:Et.
  - destruct (contains text top) eqn:Ec.
    + intros [<-|H].
      * exists r, text. auto.
      * destruct (IH H) as [r' [text' [H1 H2]]]. exists r', text'. auto.
    + intros H. destruct (IH H) as [r' [text' [H1 H2]]]. exists r', text'. auto.
  - intros H. destruct (IH H) as [r' [text' [H1 H2]]]. exists r', text'. auto.
Qed.

Lemma drop_duplicates_subset (rows : list migrant_row) :
  forall seen m, In m (drop_duplicates seen rows) -> In m rows.
Proof.
  induction rows as [|x rows IH]; intros seen m; simpl; [tauto|].
  destruct (existsb (same_key x) seen).
  - intros H. right. exact (IH _ _ H).
  - intros [<-|H]; [left; reflexivity|right; exact (IH _ _ H)].
Qed.

(** X23: every row of the result of [search_toponyms] is a record of the
    EDCS frame with a string cleantext that contains a candidate of a
    searched cell, together with the columns of that place and
    [migrant = 1]. *)
Theorem search_toponyms_sound (edcs : list edcs_row)
        (tops : list toponym_row) (m : migrant_row) :
  In m (search_toponyms edcs tops) ->
  exists t r top text,
    In t tops /\ In r edcs /\ cell_is_searched t = true
    /\ In top (candidates (toponyms t))
    /\ cleantext r = Some text /\ contains text top = true
    /\ m = make_migrant r t /\ migrant m = 1.
Proof.
  intros H. unfold search_toponyms in H.
  apply drop_duplicates_subset in H. unfold matches in H.
  apply in_flat_map in H. destruct H as [t [Ht H]].
  unfold search_row in H. apply in_flat_map in H. destruct H as [top [Htop H]].
  destruct (search_top_sound top t edcs m H) as [r [text [Hr [Hc [Hs Hm]]]]].
  exists t, r, top, text. repeat split; try assumption.
  - destruct (cell_is_searched t) eqn:E; [reflexivity|].
    rewrite (candidates_skipped t E) in Htop. destruct Htop.
  - subst m. reflexivity.
Qed.

Lemma search_toponyms_sound_witness :
  exists t r top text,
    In t [place_short_candidate] /\ In r [record_natus]
    /\ cell_is_searched t = true
    /\ In top (candidates (toponyms t))
    /\ cleantext r = Some text /\ contains text top = true
    /\ make_migrant record_natus place_short_candidate = make_migrant r t
    /\ migrant (make_migrant record_natus place_short_candidate) = 1.
Proof.
  apply (search_toponyms_sound [record_natus] [place_short_candidate]).
  vm_compute. left. reflexivity.
Defined.

Lemma str_eqb_refl (a : str) : str_eqb a a = true.
Proof. apply str_eqb_eq. reflexivity. Qed.

Lemma same_key_spec (a b : migrant_row) :
  same_key a b = true <-> migrant_key a = migrant_key b.
Proof.
  unfold same_key, migrant_key. rewrite andb_true_iff, !str_eqb_eq.
  split; [intros [-> ->]; reflexivity|intros H; inversion H; auto].
Qed.

Lemma seen_key (seen : list migrant_row) (x : migrant_row) :
  existsb (same_key x) seen = true <->
  In (migrant_key x) (map migrant_key seen).
Proof.
  rewrite existsb_exists, in_map_iff. split.
  - intros [y [Hy Hk]]. exists y. apply same_key_spec in Hk. auto.
  - intros [y [Hk Hy]]. exists y. split; [exact Hy|].
    apply same_key_spec. auto.
Qed.

Lemma drop_duplicates_keys (rows : list migrant_row) :
  forall seen,
    NoDup (map migrant_key (drop_duplicates seen rows))
    /\ (forall m, In m (drop_duplicates seen rows) ->
                  ~ In (migrant_key m) (map migrant_key seen))
    /\ (forall m, In m rows ->
                  In (migrant_key m) (map migrant_key seen)
                  \/ In (migrant_key m)
                        (map migrant_key (drop_duplicates seen rows))).
Proof.
  induction rows as [|x rows IH]; intros seen.
  - simpl. split; [constructor|]. split; intros m [].
  - simpl. destruct (existsb (same_key x) seen) eqn:E.
    + destruct (IH seen) as [H1 [H2 H3]].
      split; [exact H1|]. split; [exact H2|].
      intros m [<-|Hm]; [left; apply seen_key; exact E|apply H3; exact Hm].
    + destruct (IH (x :: seen)) as [H1 [H2 H3]].
      split; [|split].
      * simpl. constructor; [|exact H1].
        intros Hin. apply in_map_iff in Hin. destruct Hin as [y [Hk Hy]].
        apply (H2 y Hy). simpl. left. symmetry. exact Hk.
      * intros m [<-|Hm].
        -- intros Hin. apply seen_key in Hin. congruence.
        -- intros Hin. apply (H2 m Hm). simpl. right. exact Hin.
      * intros m [<-|Hm]; [right; simpl; left; reflexivity|].
        destruct (H3 m Hm) as [[Hk|Hs]|Hr].
        -- right. simpl. left. exact Hk.
        -- left. exact Hs.
        -- right. simpl. right. exact Hr.
Qed.

(** X24: no two rows of the result of [search_toponyms] share the pair
    of identifier and origin coordinates, and every pair found by the search
    is kept in the result. *)
Theorem search_toponyms_keys (edcs : list edcs_row)
        (tops : list toponym_row) :
  NoDup (map migrant_key (search_toponyms edcs tops))
  /\ (forall m, In m (matches edcs tops) ->
                In (migrant_key m)
                   (map migrant_key (search_toponyms edcs tops))).
Proof.
  unfold search_toponyms.
  destruct (drop_duplicates_keys (matches edcs tops) []) as [H1 [_ H3]].
  split; [exact H1|].
  intros m Hm. destruct (H3 m Hm) as [[]|H]. exact H.
Qed.

(** X25: a searched cell with an empty part between its commas (as after
    a trailing comma) matches every record that has a string cleantext:
    each gets a row for that place. *)
Theorem empty_candidate_matches_all (edcs : list edcs_row) (t : toponym_row)
        (s : str) (r : edcs_row) (text : str) :
  toponyms t = Some s -> 6 <= len s ->
  In [] (map strip (split_on "," s)) ->
  In r edcs -> cleantext r = Some text ->
  exists m,
    In m (search_toponyms edcs [t])
    /\ edcs_id (source m) = edcs_id r
    /\ origo_LatLong m = reprLatLong t.
Proof.
  intros Ht Hlen Hempty Hr Htext.
  assert (Hm : In (make_migrant r t) (matches edcs [t])).
  { unfold matches. simpl. rewrite app_nil_r. unfold search_row.
    apply in_flat_map. exists []. split.
    - rewrite Ht. unfold candidates.
      destruct (Z.ltb_spec (len s) 6); [lia|exact Hempty].
    - apply (search_top_complete [] t edcs r text Hr Htext).
      unfold contains, find. simpl skipn. rewrite find_from_eq.
      destruct text; reflexivity. }
  destruct (drop_duplicates_keys (matches edcs [t]) []) as [_ [_ Hk]].
  destruct (Hk _ Hm) as [[]|Hk']. fold (search_toponyms edcs [t]) in Hk'.
  apply in_map_iff in Hk'. destruct Hk' as [m [Hkey Hin]].
  exists m. split; [exact Hin|].
  unfold migrant_key in Hkey. inversion Hkey. split; reflexivity.
Qed.

Lemma empty_candidate_matches_all_witness :
  exists m,
    In m (search_toponyms [record_natus] [place_trailing_comma])
    /\ edcs_id (source m) = edcs_id record_natus
    /\ origo_LatLong m = reprLatLong place_trailing_comma.
Proof.
  apply (empty_candidate_matches_all [record_natus] place_trailing_comma
           (L "Romensis,") record_natus (L "natus Narbensis")).
  - reflexivity.
  - vm_compute. discriminate.
  - vm_compute. right. left. reflexivity.
  - left. reflexivity.
  - reflexivity.
Defined.

End MatcherResult.

(** ** Duplicates: frames without migrants, frames with one identifier *)

Section DuplicateFrames.
Import Py Duplicates.

Lemma insert_sorted_perm (r : row) (f : frame) :
  Permutation (insert_sorted r f) (r :: f).
Proof.
  induction f as [|r' f IH]; simpl.
  - apply Permutation_refl.
  - destruct (negb (id_ltb (edcs_id r) (edcs_id r'))).
    + apply perm_trans with (r' :: r :: f).
      * apply perm_skip. exact IH.
      * apply perm_swap.
    + apply Permutation_refl.
Qed.

Lemma sort_fold_perm (f : frame) :
  forall acc,
    Permutation (fold_left (fun a r => insert_sorted r a) f acc) (f ++ acc).
Proof.
  induction f as [|r f IH]; intros acc; simpl.
  - apply Permutation_refl.
  - apply perm_trans with (f ++ insert_sorted r acc); [apply IH|].
    apply perm_trans with (f ++ r :: acc).
    + apply Permutation_app_head. apply insert_sorted_perm.
    + apply Permutation_sym. apply Permutation_middle.
Qed.

(** [sort_values] returns the rows of the frame. *)
Lemma sort_values_perm (f : frame) : Permutation (sort_values f) f.
Proof.
  unfold sort_values. rewrite <- (app_nil_r f) at 2. apply sort_fold_perm.
Qed.

Lemma visit_all_without_migrants (snapshot : list row) (f : frame) :
  (forall r, In r snapshot -> migrant r = false) ->
  visit_all snapshot f = Ok f.
Proof.
  induction snapshot as [|elem rest IH]; intros H; cbn [visit_all].
  - reflexivity.
  - unfold visit. rewrite (H elem (or_introl eq_refl)). cbn [bind].
    apply IH. intros r Hr. apply H. right. exact Hr.
Qed.

(** X26: on a frame without any migrant row [ignore_duplicates] marks
    nothing and raises nothing, in whatever order [sort_values] leaves the
    rows: the loop run on any arrangement of the rows returns that
    arrangement with every [ignore] at 0, and the frame returned holds the
    rows of the input, each with [ignore = 0]. *)
Theorem ignore_duplicates_without_migrants (edcs : frame) :
  (forall r, In r edcs -> migrant r = false) ->
  (forall order,
      Permutation order edcs ->
      duplicates_loop order = Ok (map reset_ignore order))
  /\ exists f',
      ignore_duplicates edcs = Ok f'
      /\ Permutation f' (map reset_ignore edcs).
Proof.
  intros H.
  assert (Hloop : forall order,
             Permutation order edcs ->
             duplicates_loop order = Ok (map reset_ignore order)).
  { intros order Hp. unfold duplicates_loop.
    apply visit_all_without_migrants.
    intros r Hr. apply in_map_iff in Hr. destruct Hr as [x [<- Hx]].
    apply (H x). exact (Permutation_in x Hp Hx). }
  split; [exact Hloop|].
  exists (map reset_ignore (sort_values edcs)). split.
  - exact (Hloop (sort_values edcs) (sort_values_perm edcs)).
  - apply Permutation_map. apply sort_values_perm.
Qed.

Lemma ignore_duplicates_without_migrants_witness :
  (forall order,
      Permutation order frame_without_migrants ->
      duplicates_loop order = Ok (map reset_ignore order))
  /\ exists f',
      ignore_duplicates frame_without_migrants = Ok f'
      /\ Permutation f' (map reset_ignore frame_without_migrants).
Proof.
  apply ignore_duplicates_without_migrants.
  intros r H. vm_compute in H.
  destruct H as [<-|[<-|[<-|[]]]]; reflexivity.
Defined.

Lemma str_ltb_irrefl (a : str) : str_ltb a a = false.
Proof.
  induction a as [|x a IH]; simpl; [reflexivity|].
  rewrite N.ltb_irrefl. exact IH.
Qed.

Lemma insert_sorted_last (id : str) (r : row) (f : frame) :
  edcs_id r = Some id ->
  (forall x, In x f -> edcs_id x = Some id) ->
  insert_sorted r f = f ++ [r].
Proof.
  intros Hr. induction f as [|x f IH]; intros Hf; simpl.
  - reflexivity.
  - rewrite Hr, (Hf x (or_introl eq_refl)). simpl.
    rewrite str_ltb_irrefl. simpl.
    rewrite IH by (intros y Hy; apply Hf; right; exact Hy). reflexivity.
Qed.

Lemma sort_fold_one_identifier (id : str) (f : frame) :
  forall acc,
    (forall x, In x f -> edcs_id x = Some id) ->
    (forall x, In x acc -> edcs_id x = Some id) ->
    fold_left (fun a r => insert_sorted r a) f acc = acc ++ f.
Proof.
  induction f as [|r f IH]; intros acc Hf Hacc; simpl.
  - rewrite app_nil_r. reflexivity.
  - rewrite (insert_sorted_last id r acc (Hf r (or_introl eq_refl)) Hacc).
    rewrite IH.
    + rewrite <- app_assoc. reflexivity.
    + intros x Hx. apply Hf. right. exact Hx.
    + intros x Hx. apply in_app_or in Hx. destruct Hx as [Hx|[<-|[]]].
      * apply Hacc. exact Hx.
      * apply Hf. left. reflexivity.
Qed.

Lemma with_labels_rows (id : str) (rows : list (Z * str * bool * option Z)) :
  forall l,
    (forall ix i m d, In (ix, i, m, d) rows -> i = id) ->
    (forall x, In x (with_labels rows l) ->
               edcs_id x = Some id /\ ignore x = 0)
    /\ map reset_ignore (with_labels rows l) = with_labels rows l.
Proof.
  induction rows as [|[[[ix i] m] d] rows IH]; intros l H.
  - split; [intros x []|reflexivity].
  - destruct (IH (l + 1)) as [H1 H2].
    { intros ix' i' m' d' Hin. apply (H ix' i' m' d'). right. exact Hin. }
    pose proof (H ix i m d (or_introl eq_refl)) as ->.
    split.
    + intros x [<-|Hx]; [split; reflexivity|apply H1; exact Hx].
    + cbn [with_labels map]. rewrite H2. reflexivity.
Qed.

Lemma neighbours_before_one_identifier (id : str) (f : frame) :
  (forall x, In x f -> edcs_id x = Some id) ->
  forall fuel k ixs ds,
    (1 <= fuel)%nat -> 1 <= k -> len f - k + 2 <= Z.of_nat fuel ->
    neighbours fuel f (Some id) 0 (-1) k ixs ds = Raise IndexError.
Proof.
  intros Hf. induction fuel as [|fuel IH]; intros k ixs ds H1 Hk Hfuel; [lia|].
  cbn [neighbours]. unfold iloc.
  replace (0 + -1 * k) with (- k) by lia.
  destruct (Z.ltb_spec (- k) (- len f)) as [Hlow|Hok].
  - rewrite (index_below f (- k) Hlow). reflexivity.
  - destruct (index_defined f (- k)) as [r Hr]; [lia|].
    rewrite Hr. rewrite (Hf r (index_In _ _ _ Hr)).
    cbn [id_eqb]. rewrite str_eqb_refl.
    apply IH; lia.
Qed.

(** X27: on a frame, as read from the file, whose rows all have the same
    identifier and whose first row is a migrant, [ignore_duplicates] raises
    IndexError: the backward search wraps around the frame and leaves it. *)
Theorem ignore_duplicates_one_identifier_raises
        (id : str) (ix : Z) (d : option Z)
        (rest : list (Z * str * bool * option Z)) :
  (forall ix' i m' d', In (ix', i, m', d') rest -> i = id) ->
  ignore_duplicates (with_labels ((ix, id, true, d) :: rest) 0)
  = Raise IndexError.
Proof.
  intros H.
  set (rows := (ix, id, true, d) :: rest).
  assert (Hrows : forall ix' i m' d', In (ix', i, m', d') rows -> i = id).
  { intros ix' i m' d' [E|Hin]; [inversion E; reflexivity|].
    apply (H ix' i m' d' Hin). }
  destruct (with_labels_rows id rows 0 Hrows) as [Hall Hreset].
  unfold ignore_duplicates.
  change (fun r : row =>
            mkRow (label r) (Index r) (edcs_id r) (migrant r) (distance r) 0)
    with reset_ignore.
  unfold sort_values.
  rewrite (sort_fold_one_identifier id (with_labels rows 0) []
             (fun x Hx => proj1 (Hall x Hx)) (fun x Hx => match Hx with end)).
  change ([] ++ with_labels rows 0) with (with_labels rows 0). rewrite Hreset.
  set (f := with_labels rows 0) in *.
  unfold rows in f. cbn [with_labels] in f.
  unfold f at 1. cbn [visit_all]. unfold visit. cbn [migrant label edcs_id].
  rewrite (neighbours_before_one_identifier id f
             (fun x Hx => proj1 (Hall x Hx))).
  - reflexivity.
  - lia.
  - lia.
  - unfold len. lia.
Qed.

Lemma ignore_duplicates_one_identifier_raises_witness :
  ignore_duplicates
    (with_labels ((0, L "X", true, Some 50)
                    :: [(1, L "X", true, Some 12); (2, L "X", false, None)]) 0)
  = Raise IndexError.
Proof.
  apply ignore_duplicates_one_identifier_raises.
  intros ix' i m' d' Hin. simpl in Hin.
  destruct Hin as [E|[E|[]]]; inversion E; reflexivity.
Defined.

End DuplicateFrames.

(** ** Tags in place names *)

Section TagRemoval.
Import Py PlaceNames.

Lemma replace_empty (s : str) : replace s [] [] = s.
Proof.
  unfold replace. simpl. induction s as [|c s IH]; [reflexivity|].
  simpl. rewrite IH. reflexivity.
Qed.

Lemma slice_empty {A : Type} (l : list A) (a b : Z) :
  0 <= b <= a -> slice l a b = [].
Proof.
  intros H. unfold slice, clamp. pose proof (len_nonneg l).
  destruct (Z.ltb_spec a 0); [lia|]. destruct (Z.ltb_spec b 0); [lia|].
  replace (Z.to_nat (Z.min b (len l) - Z.min a (len l))) with 0%nat by lia.
  reflexivity.
Qed.

Lemma no_tags_loop_stuck (elem : str) (opening : Z) :
  opening <> -1 ->
  find elem (L "<") 0 = opening ->
  find elem (L ">") 0 < opening ->
  forall fuel, no_tags_loop fuel elem opening = None.
Proof.
  intros Hop Ho Hc. induction fuel as [|fuel IH]; cbn [no_tags_loop].
  - destruct (Z.eqb_spec opening (-1)); [contradiction|reflexivity].
  - destruct (Z.eqb_spec opening (-1)); [contradiction|].
    assert (Hge : -1 <= find elem (L ">") 0).
    { destruct (find_range elem (L ">") 0) as [E|E]; lia. }
    rewrite (slice_empty elem opening (find elem (L ">") 0 + 1)) by lia.
    rewrite replace_empty, Ho. exact IH.
Qed.

(** X28: when a string holds a ["<"] and its first [">"] comes before
    that ["<"] or is missing, the slice to remove is empty, the string never
    changes and the loop of [no_tags] never ends. *)
Theorem no_tags_never_ends (elem : str) :
  find elem (L "<") 0 <> -1 ->
  find elem (L ">") 0 < find elem (L "<") 0 ->
  forall fuel, no_tags fuel elem = None.
Proof.
  intros Ho Hc fuel. unfold no_tags.
  apply no_tags_loop_stuck; [exact Ho|reflexivity|exact Hc].
Qed.

Lemma no_tags_never_ends_witness :
  no_tags 1000 (L "Colonia <Agrippina") = None.
Proof.
  apply (no_tags_never_ends (L "Colonia <Agrippina"));
    vm_compute; [discriminate|reflexivity].
Defined.

Lemma no_tags_loop_result (fuel : nat) :
  forall elem r,
    no_tags_loop fuel elem (find elem (L "<") 0) = Some r ->
    ~ In "<"%char r.
Proof.
  induction fuel as [|fuel IH]; intros elem r; cbn [no_tags_loop].
  - destruct (Z.eqb_spec (find elem (L "<") 0) (-1)) as [E|E];
      [|discriminate].
    intros H. inversion H; subst. apply find_present. exact E.
  - destruct (Z.eqb_spec (find elem (L "<") 0) (-1)) as [E|E].
    + intros H. inversion H; subst. apply find_present. exact E.
    + apply IH.
Qed.

Lemma no_tags_loop_more_fuel (fuel : nat) :
  forall elem opening r m,
    no_tags_loop fuel elem opening = Some r ->
    no_tags_loop (fuel + m) elem opening = Some r.
Proof.
  induction fuel as [|fuel IH]; intros elem opening r m;
    cbn [no_tags_loop Nat.add].
  - destruct (Z.eqb_spec opening (-1)); [|discriminate].
    intros H. destruct m; cbn [no_tags_loop];
      destruct (Z.eqb_spec opening (-1)); congruence.
  - destruct (Z.eqb_spec opening (-1)); [tauto|].
    apply IH.
Qed.

(** X29: when [no_tags] returns, the string it returns holds no ["<"],
    and more turns give the same string; a string without ["<"] is returned
    as it is. *)
Theorem no_tags_result (fuel : nat) (elem r : str) :
  (no_tags fuel elem = Some r ->
   ~ In "<"%char r /\ forall m, no_tags (fuel + m) elem = Some r)
  /\ (~ In "<"%char elem -> no_tags fuel elem = Some elem).
Proof.
  split.
  - intros H. split.
    + exact (no_tags_loop_result fuel elem r H).
    + intros m. apply no_tags_loop_more_fuel. exact H.
  - intros Hno. unfold no_tags. change (L "<") with ["<"%char].
    rewrite (find_none "<" elem Hno). destruct fuel; reflexivity.
Qed.

Lemma no_tags_result_witness :
  (~ In "<"%char (L "Narbo Martius")
   /\ forall m, no_tags (3 + m) (L "Narbo <i>Martius</i>")
                = Some (L "Narbo Martius"))
  /\ no_tags 0 (L "Narbo") = Some (L "Narbo").
Proof.
  split.
  - apply (proj1 (no_tags_result 3 (L "Narbo <i>Martius</i>")
                    (L "Narbo Martius"))).
    vm_compute. reflexivity.
  - apply (proj2 (no_tags_result 0 (L "Narbo") [])).
    simpl. intuition discriminate.
Defined.

Lemma startswith_app (old post : str) : startswith (old ++ post) old = true.
Proof.
  induction old as [|c old IH]; [destruct post; reflexivity|].
  simpl. rewrite Ascii.eqb_refl. exact IH.
Qed.

Lemma replace_aux_skip (old new xs s : str) :
  replace_aux old new (xs ++ s) (length xs) = replace_aux old new s 0.
Proof.
  induction xs as [|x xs IH]; [reflexivity|]. simpl. exact IH.
Qed.

Lemma replace_aux_absent (h : ascii) (o new s : str) :
  ~ In h s -> replace_aux (h :: o) new s 0 = s.
Proof.
  induction s as [|c s IH]; intros Hno; [reflexivity|].
  cbn [replace_aux].
  assert (Hs : startswith (c :: s) (h :: o) = false).
  { simpl. destruct (Ascii.eqb_spec h c) as [->|Hne]; [|reflexivity].
    exfalso. apply Hno. left. reflexivity. }
  rewrite Hs, IH by (intros H; apply Hno; right; exact H). reflexivity.
Qed.

Lemma replace_aux_one (h : ascii) (o pre post : str) :
  ~ In h pre -> ~ In h post ->
  replace_aux (h :: o) [] (pre ++ (h :: o) ++ post) 0 = pre ++ post.
Proof.
  intros Hpre Hpost. induction pre as [|c pre IH].
  - simpl app. cbn [replace_aux].
    pose proof (startswith_app (h :: o) post) as Hs. simpl app in Hs.
    rewrite Hs. simpl app. simpl length.
    rewrite Nat.sub_0_r, replace_aux_skip.
    apply replace_aux_absent. exact Hpost.
  - simpl app. cbn [replace_aux].
    assert (Hs : startswith (c :: pre ++ h :: o ++ post) (h :: o) = false).
    { simpl. destruct (Ascii.eqb_spec h c) as [->|Hne]; [|reflexivity].
      exfalso. apply Hpre. left. reflexivity. }
    simpl app in IH. rewrite Hs, IH by (intros H; apply Hpre; right; exact H).
    reflexivity.
Qed.

Lemma slice_middle {A : Type} (pre mid post : list A) :
  slice (pre ++ mid ++ post) (len pre) (len pre + len mid) = mid.
Proof.
  unfold slice, clamp. rewrite !len_app.
  pose proof (len_nonneg pre). pose proof (len_nonneg mid).
  pose proof (len_nonneg post).
  destruct (Z.ltb_spec (len pre) 0); [lia|].
  destruct (Z.ltb_spec (len pre + len mid) 0); [lia|].
  rewrite !Z.min_l by lia.
  replace (len pre + len mid - len pre) with (len mid) by lia.
  rewrite !to_nat_len, skipn_length_app, firstn_length_app. reflexivity.
Qed.

(** X30: one tag [<...>] in a string that has no other ["<"] and no
    [">"] before the tag is removed by [no_tags] in one turn; the text
    before and after it is kept. *)
Theorem no_tags_single_tag (pre tag post : str) (fuel : nat) :
  ~ In "<"%char pre -> ~ In ">"%char pre -> ~ In ">"%char tag ->
  ~ In "<"%char post ->
  no_tags (S fuel) (pre ++ L "<" ++ tag ++ L ">" ++ post) = Some (pre ++ post).
Proof.
  intros Hop Hcp Hct Hpost.
  change (pre ++ L "<" ++ tag ++ L ">" ++ post)
    with (pre ++ "<"%char :: tag ++ ">"%char :: post).
  set (elem := pre ++ "<"%char :: tag ++ ">"%char :: post).
  assert (Ho : find elem ["<"%char] 0 = len pre).
  { apply find_first. exact Hop. }
  assert (Hc : find elem [">"%char] 0 = len (pre ++ "<"%char :: tag)).
  { unfold elem.
    replace (pre ++ "<"%char :: tag ++ ">"%char :: post)
      with ((pre ++ "<"%char :: tag) ++ ">"%char :: post)
      by (rewrite <- app_assoc; reflexivity).
    apply find_first. intros H. apply in_app_or in H.
    destruct H as [H|[H|H]]; [exact (Hcp H)|discriminate|exact (Hct H)]. }
  assert (Hr : slice elem (len pre) (len (pre ++ "<"%char :: tag) + 1)
               = "<"%char :: tag ++ [">"%char]).
  { unfold elem.
    replace (pre ++ "<"%char :: tag ++ ">"%char :: post)
      with (pre ++ ("<"%char :: tag ++ [">"%char]) ++ post)
      by (simpl; rewrite <- app_assoc; reflexivity).
    replace (len (pre ++ "<"%char :: tag) + 1)
      with (len pre + len ("<"%char :: tag ++ [">"%char]))
      by (unfold len; repeat rewrite length_app; simpl length;
          repeat rewrite length_app; simpl length; lia).
    apply slice_middle. }
  unfold no_tags. change (L "<") with ["<"%char]. rewrite Ho.
  cbn [no_tags_loop]. pose proof (len_nonneg pre).
  destruct (Z.eqb_spec (len pre) (-1)); [lia|].
  change (L ">") with [">"%char]. change (L "<") with ["<"%char].
  rewrite Hc, Hr. unfold replace.
  assert (Hrep : replace_aux ("<"%char :: tag ++ [">"%char]) [] elem 0
                 = pre ++ post).
  { unfold elem.
    replace (pre ++ "<"%char :: tag ++ ">"%char :: post)
      with (pre ++ ("<"%char :: tag ++ [">"%char]) ++ post)
      by (simpl; rewrite <- app_assoc; reflexivity).
    apply replace_aux_one; assumption. }
  rewrite Hrep.
  rewrite (find_none "<" (pre ++ post)).
  - destruct fuel; reflexivity.
  - intros Hin. apply in_app_or in Hin. destruct Hin as [Hin|Hin];
      [exact (Hop Hin)|exact (Hpost Hin)].
Qed.

Lemma no_tags_single_tag_witness :
  no_tags 1 (L "Narbo " ++ L "<" ++ L "i" ++ L ">" ++ L "Martius")
  = Some (L "Narbo " ++ L "Martius").
Proof.
  apply no_tags_single_tag; simpl; intuition discriminate.
Defined.

End TagRemoval.
